(** * ll_protocol: byte-stuffed framing of fixed-size messages

    A shallow embedding of [ll_protocol.c] (functions [ll_sizeof_serialized],
    [ll_serialize] and [ll_deserialize]) together with the properties of the
    encoder and of the frame scanner.

    Conventions of the embedding:
    - [size_t] is a 64-bit unsigned integer, carried as a [Z] whose arithmetic
      is reduced with [size_t_wrap] wherever the C code computes in [size_t];
    - [uint8_t] is [Byte.byte];
    - a pointer argument is a [ptr]: [NULL], or [Ptr obj] where [obj] is the
      current content of the object pointed to;
    - a function that reads or writes outside the object it was handed has
      no defined result: it returns [None]. *)

From Stdlib Require Import ZArith Lia.
From Stdlib Require Import Strings.Byte.
From stdpp Require Import base decidable option list.

Open Scope Z_scope.

(** ** Machine types *)

Abbreviation uint8_t := Byte.byte.
Abbreviation size_t := Z (only parsing).

#[global] Instance uint8_t_eq_dec : EqDecision uint8_t := Byte.byte_eq_dec.

Definition SIZE_MAX : Z := 2 ^ 64 - 1.

Definition size_t_wrap (z : Z) : size_t := z mod (SIZE_MAX + 1).

Definition size_t_ok (z : Z) : Prop := 0 <= z <= SIZE_MAX.

Inductive ptr (A : Type) : Type :=
| NULL
| Ptr (obj : A).
Arguments NULL {A}.
Arguments Ptr {A} obj.

(** [buf[i]] as an rvalue and [buf[i] = b]; both are undefined outside [buf]. *)
Definition load (buf : list uint8_t) (i : size_t) : option uint8_t :=
  buf !! Z.to_nat i.

Definition store (buf : list uint8_t) (i : size_t) (b : uint8_t)
  : option (list uint8_t) :=
  if bool_decide (Z.to_nat i < length buf)%nat
  then Some (<[Z.to_nat i := b]> buf)
  else None.

(** ** Control flow of a counted loop

    [for (size_t i = i0; i < n; i++) body] where the body neither assigns
    [i] nor [n]: the number of trips is fixed when the loop is entered.  A
    body either falls through to the next trip ([Continue]), leaves the
    function ([Return]) or has no defined behaviour ([Undefined]). *)

Inductive flow (S R : Type) : Type :=
| Continue (s : S)
| Return (r : R)
| Undefined.
Arguments Continue {S R} s.
Arguments Return {S R} r.
Arguments Undefined {S R}.

Fixpoint for_loop {S R : Type} (body : size_t -> S -> flow S R)
    (trips : nat) (i : size_t) (s : S) : flow S R :=
  match trips with
  | O => Continue s
  | Datatypes.S trips' =>
      match body i s with
      | Continue s' => for_loop body trips' (size_t_wrap (i + 1)) s'
      | Return r => Return r
      | Undefined => Undefined
      end
  end.

(** A loop body that starts by reading element [i] of an array: the rest of
    the body, [step], receives the value read. *)
Definition reading {S R : Type} (buf : list uint8_t)
    (step : size_t -> uint8_t -> S -> flow S R) (i : size_t) (s : S)
  : flow S R :=
  match load buf i with
  | None => Undefined
  | Some b => step i b s
  end.

(** ** ll_protocol.h *)

Inductive ll_status_t : Set :=
| LL_STATUS_SUCCESS
| LL_STATUS_BAD_PARAMS
| LL_STATUS_NO_MESSAGE
| LL_STATUS_NO_ENOUGH_BYTES
| LL_STATUS_MESSAGE_TOO_SHORT
| LL_STATUS_MESSAGE_TOO_LONG
| LL_STATUS_ENUM_SIZE.

Record ll_message_info_t : Set := Build_msg_info {
  size : size_t;
  begin_byte : uint8_t;
  reject_byte : uint8_t;
  end_byte : uint8_t
}.

(** ** ll_sizeof_serialized *)

Definition ll_sizeof_serialized_step (msg_info : ll_message_info_t)
    (i : size_t) (d : uint8_t) (result : size_t) : flow size_t Empty_set :=
  if bool_decide (d = begin_byte msg_info)
     || bool_decide (d = end_byte msg_info)
     || bool_decide (d = reject_byte msg_info)
  then Continue (size_t_wrap (result + 1))
  else Continue result.

Definition ll_sizeof_serialized_body (msg_info : ll_message_info_t)
    (data : list uint8_t) : size_t -> size_t -> flow size_t Empty_set :=
  reading data (ll_sizeof_serialized_step msg_info).

Definition ll_sizeof_serialized (msg_info : ll_message_info_t)
    (data : ptr (list uint8_t)) : option size_t :=
  match data with
  | NULL => Some 0
  | Ptr data =>
      let result := size_t_wrap (size msg_info + 2) in
      match for_loop (ll_sizeof_serialized_body msg_info data)
                     (Z.to_nat (size msg_info)) 0 result with
      | Continue result => Some result
      | Return r => match r with end
      | Undefined => None
      end
  end.

(** ** ll_serialize

    [tmp_out] is kept as its offset from [data_out]; the state of the loop is
    that offset and the content of the output object. *)

Definition ll_serialize_step (msg_info : ll_message_info_t)
    (i : size_t) (d : uint8_t) (st : Z * list uint8_t)
  : flow (Z * list uint8_t) Empty_set :=
  let '(tmp_out, out) := st in
  if bool_decide (d = begin_byte msg_info)
     || bool_decide (d = end_byte msg_info)
     || bool_decide (d = reject_byte msg_info)
  then
    match store out tmp_out (reject_byte msg_info) with
    | None => Undefined
    | Some out1 =>
        match store out1 (tmp_out + 1) d with
        | None => Undefined
        | Some out2 => Continue (tmp_out + 2, out2)
        end
    end
  else
    match store out tmp_out d with
    | None => Undefined
    | Some out1 => Continue (tmp_out + 1, out1)
    end.

Definition ll_serialize_body (msg_info : ll_message_info_t)
    (data_in : list uint8_t)
  : size_t -> Z * list uint8_t -> flow (Z * list uint8_t) Empty_set :=
  reading data_in (ll_serialize_step msg_info).

Definition ll_serialize (msg_info : ll_message_info_t)
    (data_in : ptr (list uint8_t)) (data_out : ptr (list uint8_t))
  : option (ptr (list uint8_t)) :=
  match data_in, data_out with
  | Ptr data_in, Ptr out =>
      match store out 0 (begin_byte msg_info) with
      | None => None
      | Some out0 =>
          match for_loop (ll_serialize_body msg_info data_in)
                         (Z.to_nat (size msg_info)) 0 (1, out0) with
          | Continue (tmp_out, out1) =>
              match store out1 tmp_out (end_byte msg_info) with
              | None => None
              | Some out2 => Some (Ptr out2)
              end
          | Return r => match r with end
          | Undefined => None
          end
      end
  | _, _ => Some data_out
  end.

(** ** ll_deserialize

    The local variables that live across iterations, with [out] the content
    of the object [data_out] points to.  [*remainder] is assigned on every
    path that leaves the function after the parameter check, so its value is
    part of the result and not of the loop state. *)

Record scan : Set := Scan {
  message_opened : bool;
  reject : bool;
  ignore_previous : bool;
  message_iter : size_t;
  byte : uint8_t;
  previous_byte : uint8_t;
  out : list uint8_t
}.

Definition scan_result : Set := ll_status_t * list uint8_t * size_t.

Definition ll_deserialize_step (msg_info : ll_message_info_t)
    (byte_stream_size : size_t)
    (i : size_t) (b : uint8_t) (l : scan) : flow scan scan_result :=
    let previous_byte := byte l in
    let byte := b in
    let message_opened :=
      if negb (message_opened l)
         && bool_decide (byte = begin_byte msg_info)
         && negb (bool_decide (previous_byte = reject_byte msg_info))
      then true else message_opened l in
    if negb message_opened then
      Continue (Scan message_opened (reject l) (ignore_previous l)
                     (message_iter l) byte previous_byte (out l))
    else if bool_decide (message_iter l = size msg_info) then
      if bool_decide (byte = end_byte msg_info) then
        if bool_decide (i = size_t_wrap (byte_stream_size - 1))
        then Return (LL_STATUS_SUCCESS, out l, 0)
        else Return (LL_STATUS_SUCCESS, out l, size_t_wrap (i + 1))
      else Return (LL_STATUS_MESSAGE_TOO_LONG, out l, i)
    else if bool_decide (byte = end_byte msg_info)
            && negb (bool_decide (previous_byte = reject_byte msg_info))
            && negb (ignore_previous l)
            && (message_iter l <? size msg_info)
    then Return (LL_STATUS_MESSAGE_TOO_SHORT, out l, size_t_wrap (i + 1))
    else if (negb (bool_decide (byte = reject_byte msg_info))
             && negb (bool_decide (byte = begin_byte msg_info))
             && negb (bool_decide (byte = end_byte msg_info))
             && negb (bool_decide (previous_byte = reject_byte msg_info)))
            ||
            (negb (bool_decide (byte = reject_byte msg_info))
             && negb (bool_decide (byte = begin_byte msg_info))
             && negb (bool_decide (byte = end_byte msg_info))
             && ignore_previous l)
    then
      match store (out l) (message_iter l) byte with
      | None => Undefined
      | Some out' =>
          Continue (Scan message_opened (reject l) false
                         (size_t_wrap (message_iter l + 1))
                         byte previous_byte out')
      end
    else if reject l then
      match store (out l) (message_iter l) byte with
      | None => Undefined
      | Some out' =>
          Continue (Scan message_opened false
                         (if bool_decide (byte = reject_byte msg_info)
                          then true else ignore_previous l)
                         (size_t_wrap (message_iter l + 1))
                         byte previous_byte out')
      end
    else if bool_decide (byte = reject_byte msg_info)
            && (negb (bool_decide (previous_byte = reject_byte msg_info))
                || ignore_previous l)
    then
      Continue (Scan message_opened true
                     (if ignore_previous l then false else ignore_previous l)
                     (message_iter l) byte previous_byte (out l))
    else
      Continue (Scan message_opened (reject l) (ignore_previous l)
                     (message_iter l) byte previous_byte (out l)).

Definition ll_deserialize_body (msg_info : ll_message_info_t)
    (byte_stream : list uint8_t) (byte_stream_size : size_t)
  : size_t -> scan -> flow scan scan_result :=
  reading byte_stream (ll_deserialize_step msg_info byte_stream_size).

Definition scan_init (msg_info : ll_message_info_t) (data_out : list uint8_t)
  : scan :=
  Scan false false false 0 (end_byte msg_info) (end_byte msg_info) data_out.

Definition ll_deserialize (msg_info : ll_message_info_t)
    (byte_stream : ptr (list uint8_t)) (byte_stream_size : size_t)
    (data_out : ptr (list uint8_t)) (remainder : ptr size_t)
  : option (ll_status_t * ptr (list uint8_t) * ptr size_t) :=
  match byte_stream, data_out, remainder with
  | Ptr stream, Ptr buf, Ptr _ =>
      match for_loop (ll_deserialize_body msg_info stream byte_stream_size)
                     (Z.to_nat byte_stream_size) 0
                     (scan_init msg_info buf) with
      | Return (status, buf', r) => Some (status, Ptr buf', Ptr r)
      | Continue l =>
          if message_opened l
          then Some (LL_STATUS_NO_ENOUGH_BYTES, Ptr (out l),
                     Ptr (size_t_wrap
                            (size_t_wrap (byte_stream_size - message_iter l)
                             - 1)))
          else Some (LL_STATUS_NO_MESSAGE, Ptr (out l), Ptr byte_stream_size)
      | Undefined => None
      end
  | _, _, _ => Some (LL_STATUS_BAD_PARAMS, data_out, remainder)
  end.

(** ** Vocabulary of the specification

    The frame as the wire format describes it: [begin_byte], the payload
    with one [reject_byte] put before every byte that equals a control byte,
    [end_byte]. *)

Definition is_control_byte (msg_info : ll_message_info_t) (b : uint8_t) : bool :=
  bool_decide (b = begin_byte msg_info)
  || bool_decide (b = end_byte msg_info)
  || bool_decide (b = reject_byte msg_info).

Fixpoint count_control (msg_info : ll_message_info_t) (payload : list uint8_t)
  : Z :=
  match payload with
  | [] => 0
  | b :: payload' =>
      (if is_control_byte msg_info b then 1 else 0)
      + count_control msg_info payload'
  end.

Fixpoint escaped_payload (msg_info : ll_message_info_t)
    (payload : list uint8_t) : list uint8_t :=
  match payload with
  | [] => []
  | b :: payload' =>
      if is_control_byte msg_info b
      then reject_byte msg_info :: b :: escaped_payload msg_info payload'
      else b :: escaped_payload msg_info payload'
  end.

Definition wire_frame (msg_info : ll_message_info_t) (payload : list uint8_t)
  : list uint8_t :=
  begin_byte msg_info :: escaped_payload msg_info payload
    ++ [end_byte msg_info].

Definition distinct_control_bytes (msg_info : ll_message_info_t) : Prop :=
  begin_byte msg_info <> end_byte msg_info
  /\ begin_byte msg_info <> reject_byte msg_info
  /\ end_byte msg_info <> reject_byte msg_info.

(** The state of the scanner just before it reads offset [k] of the window,
    when no earlier byte made the function return. *)
Definition scan_before (msg_info : ll_message_info_t)
    (byte_stream : list uint8_t) (byte_stream_size : size_t)
    (data_out : list uint8_t) (k : nat) : flow scan scan_result :=
  for_loop (ll_deserialize_body msg_info byte_stream byte_stream_size)
           k 0 (scan_init msg_info data_out).

(** "A frame is open" when byte [b] is examined in state [l]: it was open
    already, or [b] opens it (lines 80-85 of the source). *)
Definition frame_open (msg_info : ll_message_info_t) (l : scan) (b : uint8_t)
  : bool :=
  message_opened l
  || (bool_decide (b = begin_byte msg_info)
      && negb (bool_decide (byte l = reject_byte msg_info))).

(** What holds of the scanner's variables before it reads offset [k]: the
    counter is not negative, an open frame has consumed its opening
    delimiter and one byte at least for each payload byte written, the
    variables that only an open frame touches are still at their initial
    values while no frame is open, and the output object keeps its size. *)
Definition scan_inv (data_out : list uint8_t) (k : Z) (l : scan) : Prop :=
  0 <= message_iter l
  /\ (message_opened l = true -> message_iter l + 1 <= k)
  /\ (message_opened l = false ->
      message_iter l = 0 /\ reject l = false /\ ignore_previous l = false)
  /\ length (out l) = length data_out.

(** What holds of the scanner's variables inside a well-formed frame, after
    the payload bytes [decoded] have been written into [data_out]. *)
Definition decoding (msg_info : ll_message_info_t) (data_out : list uint8_t)
    (decoded : list uint8_t) (l : scan) : Prop :=
  message_opened l = true
  /\ reject l = false
  /\ ignore_previous l = bool_decide (byte l = reject_byte msg_info)
  /\ message_iter l = Z.of_nat (length decoded)
  /\ out l = decoded ++ drop (length decoded) data_out.

(** The loop seen from the bytes it reads: a proof device, equal to
    [for_loop (reading ...)] on the part of the array it walks over. *)
Fixpoint fold_bytes {S R : Type} (step : size_t -> uint8_t -> S -> flow S R)
    (i : Z) (s : S) (bytes : list uint8_t) : flow S R :=
  match bytes with
  | [] => Continue s
  | b :: bytes' =>
      match step i b s with
      | Continue s' => fold_bytes step (i + 1) s' bytes'
      | Return r => Return r
      | Undefined => Undefined
      end
  end.

(** ** The header's worked examples, run through the embedding *)

Definition example_info : ll_message_info_t := Build_msg_info 16 xaa xcc xbb.

Definition zeros (n : nat) : list uint8_t := replicate n x00.

(** Payload 4.1 of the header: sixteen bytes, eight of them control bytes. *)
Definition mixed_payload : list uint8_t :=
  [xf3; xbb; xaa; xc4; x95; xcc; x76; x8b;
   x12; xcc; x34; xdd; xaa; x77; x51; xbb].

(** Payload 1 of the header: no byte of it is a control byte. *)
Definition plain_payload : list uint8_t :=
  [xf3; x77; x56; xc4; x95; x94; x76; x8b;
   x12; x88; x34; xdd; x44; x77; x51; x31].

(** The stream of the header's warning: a twelve-byte message cut off after
    an escape byte, followed by a whole message. *)
Definition warning_info : ll_message_info_t := Build_msg_info 12 xaa xcc xbb.

Definition warning_stream : list uint8_t :=
  [xaa; xdd; xdd; xdd; xdd; xdd; xdd; xcc]
  ++ [xaa] ++ replicate 12 xdd ++ [xbb].

Definition empty_info : ll_message_info_t := Build_msg_info 0 xaa xcc xbb.

Definition pair_info : ll_message_info_t := Build_msg_info 2 xaa xcc xbb.

(** ** Vocabulary for windows that hold a frame among other bytes *)

(** Whether some byte of [window] opens a frame, [previous] being the byte
    seen just before the window (the test of lines 80-82 of the source). *)
Fixpoint has_opener (msg_info : ll_message_info_t) (previous : uint8_t)
    (window : list uint8_t) : bool :=
  match window with
  | [] => false
  | b :: window' =>
      (bool_decide (b = begin_byte msg_info)
       && negb (bool_decide (previous = reject_byte msg_info)))
      || has_opener msg_info b window'
  end.

(** The scanner's variables while no frame has been opened: nothing but
    [byte] (and [previous_byte]) has moved since the start of the call. *)
Definition idle (data_out : list uint8_t) (b : uint8_t) (l : scan) : Prop :=
  message_opened l = false
  /\ reject l = false
  /\ ignore_previous l = false
  /\ message_iter l = 0
  /\ byte l = b
  /\ out l = data_out.

(** The statuses a scan can end with. *)
Definition scan_status (status : ll_status_t) : Prop :=
  status = LL_STATUS_SUCCESS
  \/ status = LL_STATUS_MESSAGE_TOO_LONG
  \/ status = LL_STATUS_MESSAGE_TOO_SHORT.

(** What a scan can end with once a frame is open. *)
Definition ends_open (result : flow scan scan_result) : Prop :=
  match result with
  | Continue l => message_opened l = true
  | Return (status, _, _) => scan_status status
  | Undefined => True
  end.

(** The number of payload bytes that [bytes], a beginning of an escaped
    payload, holds in full: a [reject_byte] goes with the byte after it,
    and counts for nothing while that byte has not come. *)
Fixpoint decoded_count (msg_info : ll_message_info_t)
    (bytes : list uint8_t) : nat :=
  match bytes with
  | [] => 0
  | b :: bytes' =>
      if bool_decide (b = reject_byte msg_info)
      then match bytes' with
           | [] => 0
           | _ :: bytes'' => Datatypes.S (decoded_count msg_info bytes'')
           end
      else Datatypes.S (decoded_count msg_info bytes')
  end.

(** * Properties *)

(** ** The header's examples *)

Example header_example_1 :
  ll_sizeof_serialized example_info (Ptr plain_payload) = Some 18
  /\ ll_serialize example_info (Ptr plain_payload) (Ptr (zeros 18))
     = Some (Ptr ([xaa] ++ plain_payload ++ [xbb])).
Proof. split; reflexivity. Qed.

Example header_example_4_1 :
  ll_sizeof_serialized example_info (Ptr mixed_payload) = Some 24
  /\ ll_serialize example_info (Ptr mixed_payload) (Ptr (zeros 24))
     = Some (Ptr [xaa; xf3; xcc; xbb; xcc; xaa; xc4; x95; xcc; xcc; x76; x8b;
                  x12; xcc; xcc; x34; xdd; xcc; xaa; x77; x51; xcc; xbb; xbb]).
Proof. split; reflexivity. Qed.

Example header_example_4_2 :
  ll_sizeof_serialized example_info (Ptr (replicate 16 xcc)) = Some 34
  /\ ll_serialize example_info (Ptr (replicate 16 xcc)) (Ptr (zeros 34))
     = Some (Ptr ([xaa] ++ replicate 32 xcc ++ [xbb])).
Proof. split; reflexivity. Qed.

Example header_warning :
  ll_deserialize warning_info (Ptr warning_stream) 22 (Ptr (zeros 12)) (Ptr 0)
  = Some (LL_STATUS_MESSAGE_TOO_LONG,
          Ptr (replicate 6 xdd ++ [xaa] ++ replicate 5 xdd), Ptr 14).
Proof. reflexivity. Qed.

(** An [end_byte] that comes right after an escaped [reject_byte] finds
    [previous_byte == reject_byte] and [ignore_previous] set: line 116 does
    not fire and no later branch takes the byte, so the scan goes on. *)
Example end_byte_after_escaped_reject :
  ll_deserialize pair_info (Ptr [xaa; xcc; xcc; xbb]) 4 (Ptr (zeros 2)) (Ptr 0)
  = Some (LL_STATUS_NO_ENOUGH_BYTES, Ptr [xcc; x00], Ptr 2).
Proof. reflexivity. Qed.

(** ** [size_t] arithmetic *)

Lemma size_t_wrap_ok z : size_t_ok z -> size_t_wrap z = z.
Proof.
  unfold size_t_ok, size_t_wrap. intros Hz.
  apply Z.mod_small. lia.
Qed.

Lemma size_t_wrap_succ z :
  size_t_wrap (size_t_wrap z + 1) = size_t_wrap (z + 1).
Proof.
  unfold size_t_wrap.
  rewrite Zplus_mod_idemp_l. done.
Qed.

(** ** Counted loops *)

Section loops.
Context {S R : Type}.
Implicit Types (body : size_t -> S -> flow S R).

Lemma for_loop_split body (a b : nat) (i : Z) (s : S) :
  0 <= i -> i + Z.of_nat a <= SIZE_MAX ->
  for_loop body (a + b) i s =
    match for_loop body a i s with
    | Continue s' => for_loop body b (i + Z.of_nat a) s'
    | Return r => Return r
    | Undefined => Undefined
    end.
Proof.
  revert i s. induction a as [|a IH]; intros i s Hi Hmax; simpl.
  - by rewrite Z.add_0_r.
  - destruct (body i s) as [s'| |]; [|done..].
    rewrite size_t_wrap_ok by (unfold size_t_ok; lia).
    rewrite IH by lia. replace (i + 1 + Z.of_nat a) with (i + Z.of_nat (Datatypes.S a)) by lia.
    done.
Qed.

Lemma for_loop_fold_bytes (step : size_t -> uint8_t -> S -> flow S R)
    (pre bytes post : list uint8_t) (s : S) :
  Z.of_nat (length pre) + Z.of_nat (length bytes) <= SIZE_MAX ->
  for_loop (reading (pre ++ bytes ++ post) step) (length bytes)
           (Z.of_nat (length pre)) s
  = fold_bytes step (Z.of_nat (length pre)) s bytes.
Proof.
  revert pre s. induction bytes as [|b bytes IH]; intros pre s Hmax; [done|].
  simpl in *. unfold reading at 1, load.
  rewrite Nat2Z.id, list_lookup_middle by done.
  destruct (step _ b s) as [s'| |]; [|done..].
  rewrite size_t_wrap_ok by (unfold size_t_ok; lia).
  specialize (IH (pre ++ [b]) s').
  rewrite length_app, <- !(assoc_L (++)) in IH. simpl in IH.
  replace (Z.of_nat (length pre + 1)) with (Z.of_nat (length pre) + 1) in IH by lia.
  apply IH. lia.
Qed.

Lemma for_loop_whole (step : size_t -> uint8_t -> S -> flow S R)
    (bytes : list uint8_t) (s : S) :
  Z.of_nat (length bytes) <= SIZE_MAX ->
  for_loop (reading bytes step) (length bytes) 0 s = fold_bytes step 0 s bytes.
Proof.
  intros Hmax.
  pose proof (for_loop_fold_bytes step [] bytes [] s) as H.
  simpl in H. rewrite (right_id_L [] (++)) in H. apply H. lia.
Qed.

Lemma fold_bytes_app (step : size_t -> uint8_t -> S -> flow S R)
    (xs ys : list uint8_t) (i : Z) (s : S) :
  fold_bytes step i s (xs ++ ys) =
    match fold_bytes step i s xs with
    | Continue s' => fold_bytes step (i + Z.of_nat (length xs)) s' ys
    | Return r => Return r
    | Undefined => Undefined
    end.
Proof.
  revert i s. induction xs as [|x xs IH]; intros i s; simpl.
  - by rewrite Z.add_0_r.
  - destruct (step i x s) as [s'| |]; [|done..].
    rewrite IH. replace (i + 1 + Z.of_nat (length xs)) with (i + Z.pos (Pos.of_succ_nat (length xs))) by lia.
    done.
Qed.
End loops.

(** ** Memory accesses *)

Lemma store_length buf i b buf' :
  store buf i b = Some buf' -> length buf' = length buf.
Proof.
  unfold store. case_bool_decide; [|done].
  intros [= <-]. apply length_insert.
Qed.

Lemma store_middle (done_ rest : list uint8_t) (x b : uint8_t) :
  store (done_ ++ x :: rest) (Z.of_nat (length done_)) b
  = Some (done_ ++ b :: rest).
Proof.
  unfold store. rewrite Nat2Z.id, bool_decide_eq_true_2.
  - f_equal. rewrite insert_app_r_alt by done.
    by rewrite Nat.sub_diag.
  - rewrite length_app. simpl. lia.
Qed.

Lemma store_outside buf i b :
  0 <= i -> Z.of_nat (length buf) <= i -> store buf i b = None.
Proof.
  intros Hi Hlen. unfold store. rewrite bool_decide_eq_false_2; [done|]. lia.
Qed.

Lemma store_inside buf i b :
  0 <= i < Z.of_nat (length buf) ->
  store buf i b = Some (<[Z.to_nat i := b]> buf).
Proof.
  intros Hi. unfold store. rewrite bool_decide_eq_true_2; [done|]. lia.
Qed.

(** ** The encoder *)

Section encoder.
Variable msg_info : ll_message_info_t.

Lemma count_control_bounds payload :
  0 <= count_control msg_info payload <= Z.of_nat (length payload).
Proof.
  induction payload as [|b payload IH]; simpl; [lia|].
  destruct (is_control_byte msg_info b); lia.
Qed.

Lemma count_control_all payload :
  count_control msg_info payload = Z.of_nat (length payload)
  <-> Forall (fun b => is_control_byte msg_info b = true) payload.
Proof.
  induction payload as [|b payload IH]; simpl.
  - split; [constructor|done].
  - pose proof (count_control_bounds payload) as Hb.
    rewrite Forall_cons. destruct (is_control_byte msg_info b).
    + rewrite <- IH. split; [intros; split; [done|lia] | intros [_ ?]; lia].
    + split; [lia | intros [? _]; done].
Qed.

Lemma escaped_payload_length payload :
  Z.of_nat (length (escaped_payload msg_info payload))
  = Z.of_nat (length payload) + count_control msg_info payload.
Proof.
  induction payload as [|b payload IH]; simpl; [done|].
  destruct (is_control_byte msg_info b); simpl; lia.
Qed.

Lemma wire_frame_length payload :
  Z.of_nat (length (wire_frame msg_info payload))
  = Z.of_nat (length payload) + 2 + count_control msg_info payload.
Proof.
  unfold wire_frame. simpl. rewrite length_app. simpl.
  pose proof (escaped_payload_length payload). lia.
Qed.

Lemma sizeof_fold payload i result :
  fold_bytes (ll_sizeof_serialized_step msg_info) i (size_t_wrap result)
             payload
  = Continue (size_t_wrap (result + count_control msg_info payload)).
Proof.
  revert i result. induction payload as [|b payload IH]; intros i result.
  - simpl. by rewrite Z.add_0_r.
  - simpl. unfold ll_sizeof_serialized_step at 1.
    fold (is_control_byte msg_info b).
    destruct (is_control_byte msg_info b).
    + rewrite size_t_wrap_succ, IH. f_equal. f_equal. lia.
    + rewrite IH. done.
Qed.

Lemma ll_sizeof_serialized_eq payload :
  Z.of_nat (length payload) = size msg_info ->
  size msg_info <= SIZE_MAX ->
  ll_sizeof_serialized msg_info (Ptr payload)
  = Some (size_t_wrap (size msg_info + 2
                       + count_control msg_info payload)).
Proof.
  intros Hlen Hmax. unfold ll_sizeof_serialized, ll_sizeof_serialized_body.
  rewrite <- Hlen, Nat2Z.id, for_loop_whole by lia.
  by rewrite sizeof_fold.
Qed.

Lemma serialize_step_control i b (done_ rest : list uint8_t) r1 r2 :
  is_control_byte msg_info b = true ->
  ll_serialize_step msg_info i b
    (Z.of_nat (length done_), done_ ++ r1 :: r2 :: rest)
  = Continue (Z.of_nat (length done_) + 2,
              done_ ++ reject_byte msg_info :: b :: rest).
Proof.
  intros Hb. unfold ll_serialize_step.
  fold (is_control_byte msg_info b). rewrite Hb, store_middle.
  replace (Z.of_nat (length done_) + 1)
    with (Z.of_nat (length (done_ ++ [reject_byte msg_info])))
    by (rewrite length_app; simpl; lia).
  rewrite (cons_middle _ done_ (r2 :: rest)), (assoc_L (++)), store_middle.
  by rewrite <- (assoc_L (++)).
Qed.

Lemma serialize_step_plain i b (done_ rest : list uint8_t) r1 :
  is_control_byte msg_info b = false ->
  ll_serialize_step msg_info i b
    (Z.of_nat (length done_), done_ ++ r1 :: rest)
  = Continue (Z.of_nat (length done_) + 1, done_ ++ b :: rest).
Proof.
  intros Hb. unfold ll_serialize_step.
  fold (is_control_byte msg_info b). by rewrite Hb, store_middle.
Qed.

Lemma serialize_fold payload : forall i (done_ rest : list uint8_t),
  (length (escaped_payload msg_info payload) <= length rest)%nat ->
  fold_bytes (ll_serialize_step msg_info) i
             (Z.of_nat (length done_), done_ ++ rest) payload
  = Continue
      (Z.of_nat (length done_)
       + Z.of_nat (length (escaped_payload msg_info payload)),
       done_ ++ escaped_payload msg_info payload
         ++ drop (length (escaped_payload msg_info payload)) rest).
Proof.
  induction payload as [|b payload IH]; intros i done_ rest Hlen.
  - simpl. by rewrite Z.add_0_r.
  - cbn [fold_bytes escaped_payload] in *.
    destruct (is_control_byte msg_info b) eqn:Hb.
    + destruct rest as [|r1 [|r2 rest]]; simpl in Hlen; [lia..|].
      rewrite serialize_step_control by done.
      specialize (IH (i + 1) (done_ ++ [reject_byte msg_info; b]) rest).
      rewrite length_app in IH. cbn [length] in IH.
      replace (Z.of_nat (length done_ + 2)) with (Z.of_nat (length done_) + 2)
        in IH by lia.
      rewrite <- (assoc_L (++)) in IH. cbn [app] in IH.
      rewrite IH by lia. f_equal. f_equal; [cbn [length]; lia|].
      by rewrite <- (assoc_L (++)).
    + destruct rest as [|r1 rest]; simpl in Hlen; [lia|].
      rewrite serialize_step_plain by done.
      specialize (IH (i + 1) (done_ ++ [b]) rest).
      rewrite length_app in IH. cbn [length] in IH.
      replace (Z.of_nat (length done_ + 1)) with (Z.of_nat (length done_) + 1)
        in IH by lia.
      rewrite <- (assoc_L (++)) in IH. cbn [app] in IH.
      rewrite IH by lia. f_equal. f_equal; [cbn [length]; lia|].
      by rewrite <- (assoc_L (++)).
Qed.

Lemma serialize_fold_shape payload : forall i tmp_out buf,
  match fold_bytes (ll_serialize_step msg_info) i (tmp_out, buf) payload with
  | Continue (tmp_out', buf') =>
      tmp_out' = tmp_out + Z.of_nat (length (escaped_payload msg_info payload))
      /\ length buf' = length buf
  | Return r => False
  | Undefined => True
  end.
Proof.
  induction payload as [|b payload IH]; intros i tmp_out buf.
  - simpl. lia.
  - simpl. unfold ll_serialize_step at 1.
    fold (is_control_byte msg_info b).
    destruct (is_control_byte msg_info b).
    + destruct (store buf tmp_out _) as [buf1|] eqn:E1; [|done].
      destruct (store buf1 _ b) as [buf2|] eqn:E2; [|done].
      specialize (IH (i + 1) (tmp_out + 2) buf2).
      destruct (fold_bytes _ _ _ payload) as [[t' b']| |]; [|done..].
      apply store_length in E1, E2. simpl. lia.
    + destruct (store buf tmp_out b) as [buf1|] eqn:E1; [|done].
      specialize (IH (i + 1) (tmp_out + 1) buf1).
      destruct (fold_bytes _ _ _ payload) as [[t' b']| |]; [|done..].
      apply store_length in E1. simpl. lia.
Qed.

Lemma ll_serialize_fits payload buf :
  Z.of_nat (length payload) = size msg_info ->
  size msg_info <= SIZE_MAX ->
  (length (wire_frame msg_info payload) <= length buf)%nat ->
  ll_serialize msg_info (Ptr payload) (Ptr buf)
  = Some (Ptr (wire_frame msg_info payload
               ++ drop (length (wire_frame msg_info payload)) buf)).
Proof.
  intros Hlen Hmax Hfit. unfold ll_serialize, ll_serialize_body.
  unfold wire_frame in *. simpl in Hfit. rewrite length_app in Hfit.
  simpl in Hfit.
  destruct buf as [|b0 buf]; simpl in Hfit; [lia|].
  change (store (b0 :: buf) 0 (begin_byte msg_info))
    with (Some (begin_byte msg_info :: buf)).
  cbv beta iota.
  rewrite <- Hlen, Nat2Z.id, for_loop_whole by lia.
  pose proof (serialize_fold payload 0 [begin_byte msg_info] buf) as H.
  cbn [length app] in H. change (Z.of_nat 1) with 1 in H.
  rewrite H by lia. clear H.
  set (e := escaped_payload msg_info payload) in *.
  destruct (drop (length e) buf) as [|x rest] eqn:Hdrop.
  { apply (f_equal length) in Hdrop. rewrite length_drop in Hdrop.
    simpl in Hdrop. lia. }
  replace (1 + Z.of_nat (length e))
    with (Z.of_nat (length (begin_byte msg_info :: e)))
    by (simpl; lia).
  rewrite (app_comm_cons e (x :: rest)), store_middle.
  f_equal. f_equal. simpl. f_equal. rewrite <- (assoc_L (++)). f_equal.
  simpl. f_equal. rewrite length_app. simpl.
  rewrite <- drop_drop, Hdrop. done.
Qed.

Lemma ll_serialize_overflows payload buf :
  Z.of_nat (length payload) = size msg_info ->
  size msg_info <= SIZE_MAX ->
  (length buf < length (wire_frame msg_info payload))%nat ->
  ll_serialize msg_info (Ptr payload) (Ptr buf) = None.
Proof.
  intros Hlen Hmax Hfit. unfold ll_serialize, ll_serialize_body.
  destruct (store buf 0 _) as [buf0|] eqn:E0; [|done].
  rewrite <- Hlen, Nat2Z.id, for_loop_whole by lia.
  pose proof (serialize_fold_shape payload 0 1 buf0) as H.
  destruct (fold_bytes _ _ _ payload) as [[t' b']| |]; [|done..].
  destruct H as [-> Hb]. apply store_length in E0.
  rewrite store_outside; [done|lia|].
  unfold wire_frame in Hfit. simpl in Hfit. rewrite length_app in Hfit.
  simpl in Hfit. lia.
Qed.
End encoder.

Lemma is_control_byte_spec msg_info b :
  is_control_byte msg_info b = true
  <-> b = begin_byte msg_info \/ b = end_byte msg_info
      \/ b = reject_byte msg_info.
Proof.
  unfold is_control_byte.
  rewrite !orb_true_iff, !bool_decide_eq_true. tauto.
Qed.

(** C2 (size contract).  For a payload of [size msg_info] bytes whose frame
    length is representable in [size_t], [ll_sizeof_serialized] returns
    [size + 2 +] the number of payload bytes equal to a control byte, and
    [ll_serialize] writes exactly that many bytes: into any buffer at least
    that long it stores the frame in the first [n] bytes and leaves the rest
    as it was, and a buffer shorter than [n] is overrun. *)
Theorem ll_serialize_size_contract (msg_info : ll_message_info_t)
    (payload : list uint8_t) :
  Z.of_nat (length payload) = size msg_info ->
  size msg_info + 2 + count_control msg_info payload <= SIZE_MAX ->
  exists n : Z,
    ll_sizeof_serialized msg_info (Ptr payload) = Some n
    /\ n = size msg_info + 2 + count_control msg_info payload
    /\ Z.of_nat (length (wire_frame msg_info payload)) = n
    /\ (forall buf : list uint8_t,
          n <= Z.of_nat (length buf) ->
          ll_serialize msg_info (Ptr payload) (Ptr buf)
          = Some (Ptr (wire_frame msg_info payload ++ drop (Z.to_nat n) buf)))
    /\ (forall buf : list uint8_t,
          Z.of_nat (length buf) < n ->
          ll_serialize msg_info (Ptr payload) (Ptr buf) = None).
Proof.
  intros Hlen Hmax.
  pose proof (count_control_bounds msg_info payload) as Hc.
  pose proof (wire_frame_length msg_info payload) as Hw.
  exists (size msg_info + 2 + count_control msg_info payload).
  split; [|split; [done|split; [lia|split]]].
  - rewrite ll_sizeof_serialized_eq by lia.
    rewrite size_t_wrap_ok; [done|]. unfold size_t_ok. lia.
  - intros buf Hbuf.
    rewrite ll_serialize_fits by lia.
    do 4 f_equal. lia.
  - intros buf Hbuf. apply ll_serialize_overflows; lia.
Qed.

Lemma ll_serialize_size_contract_witness :
  exists n : Z,
    ll_sizeof_serialized example_info (Ptr mixed_payload) = Some n
    /\ n = size example_info + 2 + count_control example_info mixed_payload
    /\ Z.of_nat (length (wire_frame example_info mixed_payload)) = n
    /\ (forall buf : list uint8_t,
          n <= Z.of_nat (length buf) ->
          ll_serialize example_info (Ptr mixed_payload) (Ptr buf)
          = Some (Ptr (wire_frame example_info mixed_payload
                       ++ drop (Z.to_nat n) buf)))
    /\ (forall buf : list uint8_t,
          Z.of_nat (length buf) < n ->
          ll_serialize example_info (Ptr mixed_payload) (Ptr buf) = None).
Proof.
  apply (ll_serialize_size_contract example_info mixed_payload).
  - reflexivity.
  - vm_compute. discriminate.
Defined.

(** C8 (redundancy bound).  For a payload of [size msg_info] bytes,
    [ll_sizeof_serialized] is at most [2 * size + 2], and it is equal to
    that bound exactly when every payload byte is one of the three control
    bytes. *)
Theorem ll_sizeof_serialized_bound (msg_info : ll_message_info_t)
    (payload : list uint8_t) :
  Z.of_nat (length payload) = size msg_info ->
  2 * size msg_info + 2 <= SIZE_MAX ->
  exists n : Z,
    ll_sizeof_serialized msg_info (Ptr payload) = Some n
    /\ n <= 2 * size msg_info + 2
    /\ (n = 2 * size msg_info + 2
        <-> Forall (fun b => b = begin_byte msg_info
                             \/ b = end_byte msg_info
                             \/ b = reject_byte msg_info) payload).
Proof.
  intros Hlen Hmax.
  pose proof (count_control_bounds msg_info payload) as Hc.
  exists (size msg_info + 2 + count_control msg_info payload).
  split; [|split; [lia|]].
  - rewrite ll_sizeof_serialized_eq by lia.
    rewrite size_t_wrap_ok; [done|]. unfold size_t_ok. lia.
  - etrans; [|apply Forall_iff; intros b; apply is_control_byte_spec].
    rewrite <- count_control_all. lia.
Qed.

Lemma ll_sizeof_serialized_bound_witness :
  exists n : Z,
    ll_sizeof_serialized example_info (Ptr (replicate 16 xcc)) = Some n
    /\ n <= 2 * size example_info + 2
    /\ (n = 2 * size example_info + 2
        <-> Forall (fun b => b = begin_byte example_info
                             \/ b = end_byte example_info
                             \/ b = reject_byte example_info)
                   (replicate 16 xcc)).
Proof.
  apply (ll_sizeof_serialized_bound example_info (replicate 16 xcc)).
  - reflexivity.
  - vm_compute. discriminate.
Defined.

(** C7 (absent buffers).  [ll_deserialize] answers [LL_STATUS_BAD_PARAMS]
    and leaves the output buffer and the remainder as they were when the
    window, the output buffer or the remainder is a null pointer;
    [ll_sizeof_serialized] returns 0 for a null payload; [ll_serialize]
    leaves the output as it was when the payload or the output is null. *)
Theorem absent_buffer_is_no_op (msg_info : ll_message_info_t)
    (byte_stream data_in data_out : ptr (list uint8_t))
    (byte_stream_size : Z) (remainder : ptr Z) :
  ll_deserialize msg_info NULL byte_stream_size data_out remainder
    = Some (LL_STATUS_BAD_PARAMS, data_out, remainder)
  /\ ll_deserialize msg_info byte_stream byte_stream_size NULL remainder
    = Some (LL_STATUS_BAD_PARAMS, NULL, remainder)
  /\ ll_deserialize msg_info byte_stream byte_stream_size data_out NULL
    = Some (LL_STATUS_BAD_PARAMS, data_out, NULL)
  /\ ll_sizeof_serialized msg_info NULL = Some 0
  /\ ll_serialize msg_info NULL data_out = Some data_out
  /\ ll_serialize msg_info data_in NULL = Some NULL.
Proof.
  repeat split.
  - by destruct byte_stream.
  - by destruct byte_stream, data_out.
  - by destruct data_in.
Qed.

(** ** The frame scanner *)

Section scanner_step.
Variable msg_info : ll_message_info_t.
Variable byte_stream_size : Z.
Variable data_out : list uint8_t.
Hypothesis window_fits : byte_stream_size <= SIZE_MAX.

Ltac step_cases :=
  unfold ll_deserialize_step, store; simpl;
  repeat first
    [ progress simplify_eq/=
    | case_bool_decide
    | match goal with
      | |- context [negb ?b] => is_var b; destruct b
      | |- context [if ?b then _ else _] => is_var b; destruct b
      | |- context [(?x <? ?y)] => destruct (Z.ltb_spec x y)
      end ].

Lemma scan_init_inv : scan_inv data_out 0 (scan_init msg_info data_out).
Proof. unfold scan_inv, scan_init. simpl. repeat split; (done || lia). Qed.

Lemma step_continue k b l l' :
  scan_inv data_out k l -> 0 <= k < byte_stream_size ->
  ll_deserialize_step msg_info byte_stream_size k b l = Continue l' ->
  scan_inv data_out (k + 1) l'
  /\ byte l' = b
  /\ ((out l' = out l /\ message_iter l' = message_iter l)
      \/ (message_iter l <> size msg_info
          /\ store (out l) (message_iter l) b = Some (out l')
          /\ message_iter l' = message_iter l + 1)).
Proof.
  destruct l as [opened rej ign iter byt prev o].
  unfold scan_inv. simpl. intros (Hiter & Hopen & Hclosed & Hlen) Hk.
  assert (opened = true -> size_t_wrap (iter + 1) = iter + 1) as Hwrap.
  { intros Ho. apply size_t_wrap_ok. unfold size_t_ok. specialize (Hopen Ho). lia. }
  destruct opened;
    [specialize (Hopen eq_refl); specialize (Hwrap eq_refl); clear Hclosed
    |destruct (Hclosed eq_refl) as (-> & -> & ->); clear Hopen Hwrap].
  all: step_cases; intros [= <-]; simpl; rewrite ?Hwrap, ?length_insert;
    (split; [repeat split; try first [done | lia | intros; (done || lia)]
            |split; [done | try first [by left | right; repeat split; done]]]).
Qed.

Lemma step_return k b l st o r :
  0 <= k < byte_stream_size ->
  ll_deserialize_step msg_info byte_stream_size k b l = Return (st, o, r) ->
  o = out l /\ frame_open msg_info l b = true
  /\ ((message_iter l = size msg_info /\ b = end_byte msg_info
       /\ st = LL_STATUS_SUCCESS
       /\ r = if bool_decide (k = byte_stream_size - 1) then 0 else k + 1)
      \/ (message_iter l = size msg_info /\ b <> end_byte msg_info
          /\ st = LL_STATUS_MESSAGE_TOO_LONG /\ r = k)
      \/ (message_iter l < size msg_info /\ b = end_byte msg_info
          /\ byte l <> reject_byte msg_info /\ ignore_previous l = false
          /\ st = LL_STATUS_MESSAGE_TOO_SHORT /\ r = k + 1)).
Proof.
  destruct l as [opened rej ign iter byt prev o0]. simpl. intros Hk.
  assert (size_t_wrap (k + 1) = k + 1) as Hw1
    by (apply size_t_wrap_ok; unfold size_t_ok; lia).
  assert (size_t_wrap (byte_stream_size - 1) = byte_stream_size - 1) as Hw2
    by (apply size_t_wrap_ok; unfold size_t_ok; lia).
  unfold frame_open, ll_deserialize_step. simpl. rewrite Hw1, Hw2.
  step_cases; intros [= <- <- <-]; (split; [done|split; [done|]]);
    rewrite ?bool_decide_eq_true_2, ?bool_decide_eq_false_2 by done;
    first [ by left | by right; left | by right; right ].
Qed.

Lemma step_payload_complete k b l :
  0 <= k < byte_stream_size ->
  frame_open msg_info l b = true ->
  message_iter l = size msg_info ->
  ll_deserialize_step msg_info byte_stream_size k b l
  = if bool_decide (b = end_byte msg_info)
    then Return (LL_STATUS_SUCCESS, out l,
                 if bool_decide (k = byte_stream_size - 1) then 0 else k + 1)
    else Return (LL_STATUS_MESSAGE_TOO_LONG, out l, k).
Proof.
  destruct l as [opened rej ign iter byt prev o0]. simpl. intros Hk.
  assert (size_t_wrap (k + 1) = k + 1) as Hw1
    by (apply size_t_wrap_ok; unfold size_t_ok; lia).
  assert (size_t_wrap (byte_stream_size - 1) = byte_stream_size - 1) as Hw2
    by (apply size_t_wrap_ok; unfold size_t_ok; lia).
  unfold frame_open. simpl. intros Hopen ->.
  unfold ll_deserialize_step. simpl. rewrite Hw1, Hw2.
  destruct opened; simpl in *;
    repeat (case_bool_decide; simpl in *); done.
Qed.

Lemma step_premature_end k l :
  0 <= k < byte_stream_size ->
  frame_open msg_info l (end_byte msg_info) = true ->
  message_iter l < size msg_info ->
  byte l <> reject_byte msg_info ->
  ignore_previous l = false ->
  ll_deserialize_step msg_info byte_stream_size k (end_byte msg_info) l
  = Return (LL_STATUS_MESSAGE_TOO_SHORT, out l, k + 1).
Proof.
  destruct l as [opened rej ign iter byt prev o0]. simpl. intros Hk.
  assert (size_t_wrap (k + 1) = k + 1) as Hw1
    by (apply size_t_wrap_ok; unfold size_t_ok; lia).
  unfold frame_open. simpl. intros Hopen Hiter Hprev ->.
  unfold ll_deserialize_step. simpl. rewrite Hw1.
  destruct (Z.ltb_spec iter (size msg_info)); [|lia].
  destruct opened; simpl in *;
    repeat (case_bool_decide; simpl in *); (done || lia).
Qed.

Lemma step_defined k b l :
  scan_inv data_out k l ->
  message_iter l <= size msg_info ->
  size msg_info <= Z.of_nat (length data_out) ->
  ll_deserialize_step msg_info byte_stream_size k b l <> Undefined.
Proof.
  destruct l as [opened rej ign iter byt prev o]. unfold scan_inv. simpl.
  intros (Hiter & _ & _ & Hlen) Hsize Hbuf.
  step_cases; try done; lia.
Qed.

End scanner_step.

(** The scan, one offset after the other. *)

Section scanner.
Variable msg_info : ll_message_info_t.
Variable byte_stream : list uint8_t.
Variable byte_stream_size : Z.
Variable data_out : list uint8_t.
Hypothesis window_size : Z.of_nat (length byte_stream) = byte_stream_size.
Hypothesis window_fits : byte_stream_size <= SIZE_MAX.

Lemma scan_before_succ (k : nat) :
  (k < length byte_stream)%nat ->
  scan_before msg_info byte_stream byte_stream_size data_out (Datatypes.S k)
  = match scan_before msg_info byte_stream byte_stream_size data_out k with
    | Continue l =>
        match byte_stream !! k with
        | Some b =>
            ll_deserialize_step msg_info byte_stream_size (Z.of_nat k) b l
        | None => Undefined
        end
    | Return r => Return r
    | Undefined => Undefined
    end.
Proof.
  intros Hk. unfold scan_before.
  replace (Datatypes.S k) with (k + 1)%nat by lia.
  rewrite for_loop_split by lia.
  destruct (for_loop _ k 0 _) as [l| |]; [|done..].
  simpl. unfold ll_deserialize_body at 1, reading, load.
  rewrite Z.add_0_l, Nat2Z.id.
  destruct (byte_stream !! k) as [b|]; [|done].
  by destruct (ll_deserialize_step _ _ _ b l).
Qed.

Lemma scan_before_inv (k : nat) l :
  (k <= length byte_stream)%nat ->
  scan_before msg_info byte_stream byte_stream_size data_out k = Continue l ->
  scan_inv data_out (Z.of_nat k) l
  /\ (0 <= size msg_info -> message_iter l <= size msg_info).
Proof.
  revert l. induction k as [|k IH]; intros l Hk.
  - intros [= <-]. split; [apply scan_init_inv|]. simpl. lia.
  - rewrite scan_before_succ by lia.
    destruct (scan_before _ _ _ _ k) as [l0| |]; [|done..].
    destruct (IH l0) as [Hinv Hsz]; [lia|done|].
    destruct (byte_stream !! k) as [b|]; [|done].
    intros Hstep.
    eapply step_continue in Hstep; [|done|exact Hinv|lia].
    destruct Hstep as (Hinv' & _ & Hw).
    split; [by replace (Z.of_nat (Datatypes.S k)) with (Z.of_nat k + 1) by lia|].
    intros Hs. specialize (Hsz Hs). destruct Hw as [[_ ->]|(? & _ & ->)]; lia.
Qed.

Lemma scan_before_defined (k : nat) :
  0 <= size msg_info ->
  size msg_info <= Z.of_nat (length data_out) ->
  (k <= length byte_stream)%nat ->
  scan_before msg_info byte_stream byte_stream_size data_out k <> Undefined.
Proof.
  intros Hsz Hbuf. induction k as [|k IH]; intros Hk; [done|].
  rewrite scan_before_succ by lia.
  destruct (scan_before _ _ _ _ k) as [l| |] eqn:Hl; [|done|by apply IH; lia].
  destruct (lookup_lt_is_Some_2 byte_stream k) as [b ->]; [lia|].
  apply scan_before_inv in Hl as [Hinv Hle]; [|lia].
  eapply step_defined; [exact Hinv|by apply Hle|done].
Qed.

Lemma scan_before_return (k : nat) r :
  (k <= length byte_stream)%nat ->
  scan_before msg_info byte_stream byte_stream_size data_out k = Return r ->
  scan_before msg_info byte_stream byte_stream_size data_out
              (length byte_stream) = Return r.
Proof.
  intros Hk Hr. unfold scan_before in *.
  replace (length byte_stream) with (k + (length byte_stream - k))%nat by lia.
  rewrite for_loop_split by lia. by rewrite Hr.
Qed.

Lemma ll_deserialize_scan remainder :
  ll_deserialize msg_info (Ptr byte_stream) byte_stream_size (Ptr data_out)
                 (Ptr remainder)
  = match scan_before msg_info byte_stream byte_stream_size data_out
                      (length byte_stream) with
    | Return (status, buf', r) => Some (status, Ptr buf', Ptr r)
    | Continue l =>
        if message_opened l
        then Some (LL_STATUS_NO_ENOUGH_BYTES, Ptr (out l),
                   Ptr (size_t_wrap
                          (size_t_wrap (byte_stream_size - message_iter l)
                           - 1)))
        else Some (LL_STATUS_NO_MESSAGE, Ptr (out l), Ptr byte_stream_size)
    | Undefined => None
    end.
Proof.
  unfold ll_deserialize, scan_before.
  by rewrite <- window_size, Nat2Z.id.
Qed.

Lemma ll_deserialize_returns_at (k : nat) l b status buf' r remainder :
  scan_before msg_info byte_stream byte_stream_size data_out k = Continue l ->
  byte_stream !! k = Some b ->
  ll_deserialize_step msg_info byte_stream_size (Z.of_nat k) b l
    = Return (status, buf', r) ->
  ll_deserialize msg_info (Ptr byte_stream) byte_stream_size (Ptr data_out)
                 (Ptr remainder)
  = Some (status, Ptr buf', Ptr r).
Proof.
  intros Hl Hb Hstep.
  pose proof (lookup_lt_Some _ _ _ Hb) as Hk.
  rewrite ll_deserialize_scan.
  rewrite (scan_before_return (Datatypes.S k) (status, buf', r)); [done|lia|].
  rewrite scan_before_succ by done. by rewrite Hl, Hb.
Qed.
End scanner.

Lemma scan_before_return_shape msg_info byte_stream byte_stream_size data_out
    (k : nat) status buf' r :
  Z.of_nat (length byte_stream) = byte_stream_size ->
  byte_stream_size <= SIZE_MAX ->
  (k <= length byte_stream)%nat ->
  scan_before msg_info byte_stream byte_stream_size data_out k
    = Return (status, buf', r) ->
  length buf' = length data_out /\ 0 <= r <= Z.of_nat k.
Proof.
  intros Hlen Hmax. induction k as [|k IH]; intros Hk; [done|].
  rewrite scan_before_succ by (done || lia).
  destruct (scan_before _ _ _ _ k) as [l| |] eqn:Hl; [| |done].
  - destruct (byte_stream !! k) as [b|]; [|done].
    intros Hstep. apply step_return in Hstep; [|lia..].
    destruct Hstep as (-> & _ & Hcases).
    apply scan_before_inv in Hl as [(_ & _ & _ & Ho) _]; [|done..|lia].
    split; [done|].
    destruct Hcases as [(_ & _ & _ & ->)|[(_ & _ & _ & ->)|(_ & _ & _ & _ & _ & ->)]];
      try case_bool_decide; lia.
  - intros [= ->]. destruct IH as [? ?]; [lia|done|]. split; [done|lia].
Qed.

(** C3 (payload complete).  When the scan reaches offset [k] with a frame
    open and [message_iter = size], the call ends at that byte: with
    [LL_STATUS_SUCCESS] if it is [end_byte], the remainder being [k + 1], or 0
    when [k] is the last offset of the window; with
    [LL_STATUS_MESSAGE_TOO_LONG] and remainder [k] otherwise. *)
Theorem payload_complete_check (msg_info : ll_message_info_t)
    (byte_stream : list uint8_t) (byte_stream_size : Z)
    (data_out : list uint8_t) (remainder : Z)
    (k : nat) (l : scan) (b : uint8_t) :
  Z.of_nat (length byte_stream) = byte_stream_size ->
  byte_stream_size <= SIZE_MAX ->
  scan_before msg_info byte_stream byte_stream_size data_out k = Continue l ->
  byte_stream !! k = Some b ->
  frame_open msg_info l b = true ->
  message_iter l = size msg_info ->
  ll_deserialize msg_info (Ptr byte_stream) byte_stream_size (Ptr data_out)
                 (Ptr remainder)
  = if bool_decide (b = end_byte msg_info)
    then Some (LL_STATUS_SUCCESS, Ptr (out l),
               Ptr (if bool_decide (Z.of_nat k = byte_stream_size - 1)
                    then 0 else Z.of_nat k + 1))
    else Some (LL_STATUS_MESSAGE_TOO_LONG, Ptr (out l), Ptr (Z.of_nat k)).
Proof.
  intros Hlen Hmax Hl Hb Hopen Hiter.
  pose proof (lookup_lt_Some _ _ _ Hb) as Hk.
  pose proof (step_payload_complete msg_info byte_stream_size Hmax
                (Z.of_nat k) b l) as Hstep.
  case_bool_decide;
    eapply ll_deserialize_returns_at; eauto; apply Hstep; (done || lia).
Qed.

Lemma payload_complete_check_witness :
  ll_deserialize pair_info (Ptr [xaa; x01; x02; xbb; x07]) 5
                 (Ptr [x00; x00]) (Ptr 0)
  = if bool_decide (xbb = end_byte pair_info)
    then Some (LL_STATUS_SUCCESS, Ptr [x01; x02],
               Ptr (if bool_decide (Z.of_nat 3 = 5 - 1)
                    then 0 else Z.of_nat 3 + 1))
    else Some (LL_STATUS_MESSAGE_TOO_LONG, Ptr [x01; x02], Ptr (Z.of_nat 3)).
Proof.
  apply (payload_complete_check pair_info [xaa; x01; x02; xbb; x07] 5
           [x00; x00] 0 3 (Scan true false false 2 x02 x01 [x01; x02]) xbb).
  - reflexivity.
  - vm_compute. discriminate.
  - reflexivity.
  - reflexivity.
  - reflexivity.
  - reflexivity.
Defined.

(** The test of lines 116-119, end to end.  When the scan reaches offset
    [k] with a frame open and fewer than [size] payload bytes written, and
    the byte there is [end_byte] while the previous byte is not
    [reject_byte] and [ignore_previous] is clear, the call returns
    [LL_STATUS_MESSAGE_TOO_SHORT] with remainder [k + 1]. *)
Theorem premature_end_byte (msg_info : ll_message_info_t)
    (byte_stream : list uint8_t) (byte_stream_size : Z)
    (data_out : list uint8_t) (remainder : Z) (k : nat) (l : scan) :
  Z.of_nat (length byte_stream) = byte_stream_size ->
  byte_stream_size <= SIZE_MAX ->
  scan_before msg_info byte_stream byte_stream_size data_out k = Continue l ->
  byte_stream !! k = Some (end_byte msg_info) ->
  frame_open msg_info l (end_byte msg_info) = true ->
  message_iter l < size msg_info ->
  byte l <> reject_byte msg_info ->
  ignore_previous l = false ->
  ll_deserialize msg_info (Ptr byte_stream) byte_stream_size (Ptr data_out)
                 (Ptr remainder)
  = Some (LL_STATUS_MESSAGE_TOO_SHORT, Ptr (out l), Ptr (Z.of_nat k + 1)).
Proof.
  intros Hlen Hmax Hl Hb Hopen Hiter Hprev Hign.
  pose proof (lookup_lt_Some _ _ _ Hb) as Hk.
  eapply ll_deserialize_returns_at; eauto.
  apply step_premature_end; (done || lia).
Qed.

Lemma premature_end_byte_witness :
  ll_deserialize pair_info (Ptr [x07; xaa; x01; xbb; x07]) 5
                 (Ptr [x00; x00]) (Ptr 0)
  = Some (LL_STATUS_MESSAGE_TOO_SHORT, Ptr [x01; x00], Ptr (Z.of_nat 3 + 1)).
Proof.
  apply (premature_end_byte pair_info [x07; xaa; x01; xbb; x07] 5
           [x00; x00] 0 3 (Scan true false false 1 x01 xaa [x01; x00])).
  - reflexivity.
  - vm_compute. discriminate.
  - reflexivity.
  - reflexivity.
  - reflexivity.
  - reflexivity.
  - discriminate.
  - reflexivity.
Defined.

(** C4 (premature end).  The claim holds where line 116 fires
    ([premature_end_byte]) and fails after an escaped [reject_byte].  With
    message size 2 and the window [AA CC CC BB BB], the scan reaches
    offsets 3 and 4 with the frame open, one payload byte written and no
    escape pending; the byte there is [end_byte], and at offset 4 the byte
    before it is not even a [reject_byte].  Line 116 fires at neither
    offset, because [previous_byte == reject_byte] at offset 3 and
    [ignore_previous] is still set at offset 4, and no later branch takes
    the byte: the call ends with [LL_STATUS_NO_ENOUGH_BYTES] and
    remainder 3 instead of [LL_STATUS_MESSAGE_TOO_SHORT]. *)
Theorem premature_end_after_escaped_reject_missed :
  scan_before pair_info [xaa; xcc; xcc; xbb; xbb] 5 [x00; x00] 3
    = Continue (Scan true false true 1 xcc xcc [xcc; x00])
  /\ [xaa; xcc; xcc; xbb; xbb] !! 3%nat = Some (end_byte pair_info)
  /\ scan_before pair_info [xaa; xcc; xcc; xbb; xbb] 5 [x00; x00] 4
     = Continue (Scan true false true 1 xbb xcc [xcc; x00])
  /\ [xaa; xcc; xcc; xbb; xbb] !! 4%nat = Some (end_byte pair_info)
  /\ xbb <> reject_byte pair_info
  /\ message_iter (Scan true false true 1 xbb xcc [xcc; x00])
     < size pair_info
  /\ ll_deserialize pair_info (Ptr [xaa; xcc; xcc; xbb; xbb]) 5
                    (Ptr [x00; x00]) (Ptr 0)
     = Some (LL_STATUS_NO_ENOUGH_BYTES, Ptr [xcc; x00], Ptr 3).
Proof. repeat split. discriminate. Qed.

(** The value of lines 167-171.  When the scan reaches the end of the
    window with a frame open, the call returns [LL_STATUS_NO_ENOUGH_BYTES]
    and the remainder is [byte_stream_size - message_iter - 1]: the window
    size less the opening delimiter and the payload bytes written so far,
    a subtraction that does not wrap. *)
Theorem window_ends_inside_frame (msg_info : ll_message_info_t)
    (byte_stream : list uint8_t) (byte_stream_size : Z)
    (data_out : list uint8_t) (remainder : Z) (l : scan) :
  Z.of_nat (length byte_stream) = byte_stream_size ->
  byte_stream_size <= SIZE_MAX ->
  scan_before msg_info byte_stream byte_stream_size data_out
              (length byte_stream) = Continue l ->
  message_opened l = true ->
  ll_deserialize msg_info (Ptr byte_stream) byte_stream_size (Ptr data_out)
                 (Ptr remainder)
  = Some (LL_STATUS_NO_ENOUGH_BYTES, Ptr (out l),
          Ptr (byte_stream_size - message_iter l - 1))
  /\ 0 <= message_iter l
  /\ 0 <= byte_stream_size - message_iter l - 1.
Proof.
  intros Hlen Hmax Hl Hopen.
  rewrite ll_deserialize_scan, Hl, Hopen by done.
  apply scan_before_inv in Hl as [(Hiter & Hcons & _) _]; [|done..].
  specialize (Hcons Hopen).
  rewrite (size_t_wrap_ok (byte_stream_size - message_iter l))
    by (unfold size_t_ok; lia).
  rewrite size_t_wrap_ok by (unfold size_t_ok; lia).
  repeat split; (done || lia).
Qed.

Lemma window_ends_inside_frame_witness :
  ll_deserialize pair_info (Ptr [x07; xaa; xcc; xbb]) 4
                 (Ptr [x00; x00]) (Ptr 0)
  = Some (LL_STATUS_NO_ENOUGH_BYTES, Ptr [xbb; x00], Ptr (4 - 1 - 1))
  /\ 0 <= 1
  /\ 0 <= 4 - 1 - 1.
Proof.
  apply (window_ends_inside_frame pair_info [x07; xaa; xcc; xbb] 4
           [x00; x00] 0 (Scan true false false 1 xbb xcc [xbb; x00])).
  - reflexivity.
  - vm_compute. discriminate.
  - reflexivity.
  - reflexivity.
Defined.

(** C5 (window ends inside a frame).  The status and the value
    [byte_stream_size - message_iter - 1] are as the claim says
    ([window_ends_inside_frame]), but that offset is not always the
    position to resume scanning from.  With message size 2 and the window
    [07 AA CC BB], the frame is opened by the byte at offset 1 and the call
    stores remainder 2, the offset of the escape byte.  Once [11 BB] has
    arrived, the call on the stream from offset 2 on finds no frame,
    whatever the output buffer holds, while the call from offset 1 on, the
    opening delimiter, returns the payload [BB 11]. *)
Theorem remainder_past_frame_start (buf : list uint8_t) (rem : Z) :
  scan_before pair_info [x07; xaa; xcc; xbb] 4 [x00; x00] 1
    = Continue (Scan false false false 0 x07 xbb [x00; x00])
  /\ scan_before pair_info [x07; xaa; xcc; xbb] 4 [x00; x00] 2
     = Continue (Scan true false false 0 xaa x07 [x00; x00])
  /\ ll_deserialize pair_info (Ptr [x07; xaa; xcc; xbb]) 4
                    (Ptr [x00; x00]) (Ptr 0)
     = Some (LL_STATUS_NO_ENOUGH_BYTES, Ptr [xbb; x00], Ptr 2)
  /\ ll_deserialize pair_info
                    (Ptr (drop 2 [x07; xaa; xcc; xbb; x11; xbb])) 4
                    (Ptr buf) (Ptr rem)
     = Some (LL_STATUS_NO_MESSAGE, Ptr buf, Ptr 4)
  /\ ll_deserialize pair_info
                    (Ptr (drop 1 [x07; xaa; xcc; xbb; x11; xbb])) 5
                    (Ptr [xbb; x00]) (Ptr 2)
     = Some (LL_STATUS_SUCCESS, Ptr [xbb; x11], Ptr 0).
Proof. repeat split. Qed.

(** C9 (writes stay inside [data_out]).  With an output buffer of exactly
    [size msg_info] bytes the call is defined on every window and returns a
    buffer of the same length; and at every offset the scan reaches, the
    step either leaves the buffer and [message_iter] alone, or stores the
    byte read at index [message_iter], with [message_iter < size], and
    advances [message_iter] by one; a step that returns writes nothing. *)
Theorem data_out_writes_in_bounds (msg_info : ll_message_info_t)
    (byte_stream : list uint8_t) (byte_stream_size : Z)
    (data_out : list uint8_t) (remainder : Z) :
  0 <= size msg_info ->
  Z.of_nat (length data_out) = size msg_info ->
  Z.of_nat (length byte_stream) = byte_stream_size ->
  byte_stream_size <= SIZE_MAX ->
  (exists status buf' r,
      ll_deserialize msg_info (Ptr byte_stream) byte_stream_size
                     (Ptr data_out) (Ptr remainder)
      = Some (status, Ptr buf', Ptr r)
      /\ length buf' = length data_out)
  /\ (forall (k : nat) (l : scan) (b : uint8_t),
        scan_before msg_info byte_stream byte_stream_size data_out k
          = Continue l ->
        byte_stream !! k = Some b ->
        match ll_deserialize_step msg_info byte_stream_size (Z.of_nat k) b l
        with
        | Continue l' =>
            (out l' = out l /\ message_iter l' = message_iter l)
            \/ (0 <= message_iter l < size msg_info
                /\ out l' = <[Z.to_nat (message_iter l) := b]> (out l)
                /\ message_iter l' = message_iter l + 1)
        | Return (_, buf', _) => buf' = out l
        | Undefined => False
        end).
Proof.
  intros Hsize Hbuf Hlen Hmax. split.
  - rewrite ll_deserialize_scan by done.
    pose proof (scan_before_defined msg_info byte_stream byte_stream_size
                  data_out Hlen Hmax (length byte_stream)) as Hdef.
    destruct (scan_before _ _ _ _ (length byte_stream))
      as [l|[[status buf'] r]|] eqn:Hscan.
    + apply scan_before_inv in Hscan as [(_ & _ & _ & Ho) _]; [|done..].
      destruct (message_opened l); eauto 10.
    + apply scan_before_return_shape in Hscan as [Ho _]; [|done..].
      eauto 10.
    + exfalso. apply Hdef; (done || lia).
  - intros k l b Hl Hb.
    pose proof (lookup_lt_Some _ _ _ Hb) as Hk.
    apply scan_before_inv in Hl as [Hinv Hle]; [|done|done|lia].
    specialize (Hle Hsize).
    pose proof (step_defined msg_info byte_stream_size data_out
                  (Z.of_nat k) b l Hinv Hle) as Hdef.
    destruct (ll_deserialize_step _ _ _ b l) as [l'|[[status buf'] r]|] eqn:Hstep.
    + eapply step_continue in Hstep; [|done|exact Hinv|lia].
      destruct Hstep as (_ & _ & [Hsame|(Hne & Hstore & Hnext)]); [by left|].
      right. destruct Hinv as (Hiter & _ & _ & Ho).
      rewrite store_inside in Hstore by lia.
      injection Hstore as <-. repeat split; (done || lia).
    + apply step_return in Hstep; [|done|lia]. by destruct Hstep as [-> _].
    + apply Hdef; (done || lia).
Qed.

Lemma data_out_writes_in_bounds_witness :
  (exists status buf' r,
      ll_deserialize example_info
                     (Ptr (x07 :: wire_frame example_info mixed_payload)) 25
                     (Ptr (zeros 16)) (Ptr 0)
      = Some (status, Ptr buf', Ptr r)
      /\ length buf' = length (zeros 16))
  /\ (forall (k : nat) (l : scan) (b : uint8_t),
        scan_before example_info
                    (x07 :: wire_frame example_info mixed_payload) 25
                    (zeros 16) k
          = Continue l ->
        (x07 :: wire_frame example_info mixed_payload) !! k = Some b ->
        match ll_deserialize_step example_info 25 (Z.of_nat k) b l with
        | Continue l' =>
            (out l' = out l /\ message_iter l' = message_iter l)
            \/ (0 <= message_iter l < size example_info
                /\ out l' = <[Z.to_nat (message_iter l) := b]> (out l)
                /\ message_iter l' = message_iter l + 1)
        | Return (_, buf', _) => buf' = out l
        | Undefined => False
        end).
Proof.
  apply (data_out_writes_in_bounds example_info
           (x07 :: wire_frame example_info mixed_payload) 25 (zeros 16) 0).
  - vm_compute. discriminate.
  - reflexivity.
  - reflexivity.
  - vm_compute. discriminate.
Defined.

(** C10 (remainder stays inside the window).  Whenever [ll_deserialize]
    returns a status other than [LL_STATUS_BAD_PARAMS], the value it stores
    in [*remainder] lies between 0 and [byte_stream_size]; and when the
    window ends with a frame open, [message_iter + 1 <= byte_stream_size],
    so that [byte_stream_size - message_iter - 1], the value stored, is
    computed without wrapping. *)
Theorem remainder_within_window (msg_info : ll_message_info_t)
    (byte_stream data_out : ptr (list uint8_t)) (byte_stream_size : Z)
    (remainder : ptr Z)
    (status : ll_status_t) (data_out' : ptr (list uint8_t))
    (remainder' : ptr Z) :
  (forall window, byte_stream = Ptr window ->
                  Z.of_nat (length window) = byte_stream_size) ->
  byte_stream_size <= SIZE_MAX ->
  ll_deserialize msg_info byte_stream byte_stream_size data_out remainder
    = Some (status, data_out', remainder') ->
  status <> LL_STATUS_BAD_PARAMS ->
  exists r : Z,
    remainder' = Ptr r /\ 0 <= r <= byte_stream_size
    /\ (forall window buf l,
          byte_stream = Ptr window -> data_out = Ptr buf ->
          scan_before msg_info window byte_stream_size buf (length window)
            = Continue l ->
          message_opened l = true ->
          status = LL_STATUS_NO_ENOUGH_BYTES
          /\ message_iter l + 1 <= byte_stream_size
          /\ r = byte_stream_size - message_iter l - 1).
Proof.
  intros Hwin Hmax Hcall Hstatus.
  destruct byte_stream as [|window]; [by injection Hcall as <-|].
  destruct data_out as [|buf]; [by injection Hcall as <-|].
  destruct remainder as [|rem]; [by injection Hcall as <-|].
  specialize (Hwin window eq_refl).
  rewrite ll_deserialize_scan in Hcall by done.
  assert (0 <= byte_stream_size) as Hpos by lia.
  destruct (scan_before _ _ _ _ (length window))
    as [l|[[status0 buf'] r]|] eqn:Hscan; [| |done].
  - pose proof Hscan as Hl.
    apply scan_before_inv in Hl as [(Hiter & Hcons & _) _]; [|done..].
    destruct (message_opened l) eqn:Hopen.
    + specialize (Hcons eq_refl).
      rewrite (size_t_wrap_ok (byte_stream_size - message_iter l)) in Hcall
        by (unfold size_t_ok; lia).
      rewrite size_t_wrap_ok in Hcall by (unfold size_t_ok; lia).
      injection Hcall as <- <- <-.
      eexists. split; [done|]. split; [lia|].
      intros ? ? l' [= <-] [= <-]. rewrite Hscan. intros [= <-] _.
      repeat split; (done || lia).
    + injection Hcall as <- <- <-.
      eexists. split; [done|]. split; [lia|].
      intros ? ? l' [= <-] [= <-]. rewrite Hscan. intros [= <-] Hopen'.
      congruence.
  - injection Hcall as <- <- <-.
    pose proof Hscan as Hret.
    apply scan_before_return_shape in Hret as [_ Hr]; [|done..].
    eexists. split; [done|]. split; [lia|].
    intros ? ? l' [= <-] [= <-] Hl'. by rewrite Hl' in Hscan.
Qed.

Lemma remainder_within_window_witness :
  exists r : Z,
    Ptr 2 = Ptr r /\ 0 <= r <= 4
    /\ (forall window buf l,
          Ptr [x07; xaa; xcc; xbb] = Ptr window -> Ptr [x00; x00] = Ptr buf ->
          scan_before pair_info window 4 buf (length window) = Continue l ->
          message_opened l = true ->
          LL_STATUS_NO_ENOUGH_BYTES = LL_STATUS_NO_ENOUGH_BYTES
          /\ message_iter l + 1 <= 4
          /\ r = 4 - message_iter l - 1).
Proof.
  apply (remainder_within_window pair_info (Ptr [x07; xaa; xcc; xbb])
           (Ptr [x00; x00]) 4 (Ptr 0)
           LL_STATUS_NO_ENOUGH_BYTES (Ptr [xbb; x00]) (Ptr 2)).
  - intros window [= <-]. reflexivity.
  - vm_compute. discriminate.
  - reflexivity.
  - discriminate.
Defined.

(** ** Decoding a frame produced by the encoder *)

Section roundtrip.
Variable msg_info : ll_message_info_t.
Variable byte_stream_size : Z.
Variable data_out : list uint8_t.
Hypothesis distinct : distinct_control_bytes msg_info.

Lemma is_control_byte_false b :
  is_control_byte msg_info b = false ->
  b <> begin_byte msg_info /\ b <> end_byte msg_info
  /\ b <> reject_byte msg_info.
Proof.
  unfold is_control_byte.
  rewrite !orb_false_iff, !bool_decide_eq_false. tauto.
Qed.

Lemma store_decoded (decoded : list uint8_t) b :
  (length decoded < length data_out)%nat ->
  store (decoded ++ drop (length decoded) data_out)
        (Z.of_nat (length decoded)) b
  = Some ((decoded ++ [b]) ++ drop (length (decoded ++ [b])) data_out).
Proof.
  intros Hlen.
  destruct (lookup_lt_is_Some_2 data_out (length decoded) Hlen) as [x Hx].
  rewrite (drop_S _ _ _ Hx), store_middle, length_app.
  rewrite <- (assoc_L (++)). simpl.
  by rewrite Nat.add_1_r.
Qed.

Lemma step_plain_byte i b decoded l :
  decoding msg_info data_out decoded l ->
  is_control_byte msg_info b = false ->
  Z.of_nat (length decoded) < size msg_info ->
  (length decoded < length data_out)%nat ->
  Z.of_nat (length decoded) < SIZE_MAX ->
  exists l',
    ll_deserialize_step msg_info byte_stream_size i b l = Continue l'
    /\ decoding msg_info data_out (decoded ++ [b]) l'.
Proof.
  destruct l as [opened rej ign iter byt prev o]. unfold decoding. simpl.
  intros (-> & -> & -> & -> & ->) Hb Hsize Hbuf Hmax.
  apply is_control_byte_false in Hb as (Hb1 & Hb2 & Hb3).
  unfold ll_deserialize_step. simpl.
  rewrite store_decoded by done.
  rewrite (size_t_wrap_ok (Z.of_nat (length decoded) + 1))
    by (unfold size_t_ok; lia).
  rewrite (bool_decide_eq_false_2 (_ = size msg_info)) by lia.
  rewrite !(bool_decide_eq_false_2 (b = _)) by done. simpl.
  case_bool_decide; simpl;
    (eexists; split; [done|]); simpl;
    rewrite bool_decide_eq_false_2, length_app by done;
    repeat split; simpl; lia.
Qed.
Lemma step_reject_byte i decoded l :
  decoding msg_info data_out decoded l ->
  Z.of_nat (length decoded) < size msg_info ->
  ll_deserialize_step msg_info byte_stream_size i (reject_byte msg_info) l
  = Continue (Scan true true false (Z.of_nat (length decoded))
                   (reject_byte msg_info) (byte l)
                   (decoded ++ drop (length decoded) data_out)).
Proof.
  destruct l as [opened rej ign iter byt prev o]. unfold decoding. simpl.
  intros (-> & -> & -> & -> & ->) Hsize.
  destruct distinct as (Hbe & Hbr & Her).
  unfold ll_deserialize_step. simpl.
  rewrite (bool_decide_eq_false_2 (_ = size msg_info)) by lia.
  rewrite (bool_decide_eq_false_2 (reject_byte msg_info = end_byte msg_info))
    by done.
  rewrite (bool_decide_eq_true_2 (reject_byte msg_info = reject_byte msg_info))
    by done.
  simpl. rewrite orb_negb_l. simpl.
  by case_bool_decide.
Qed.

Lemma step_literal_byte i b decoded prev :
  Z.of_nat (length decoded) < size msg_info ->
  (length decoded < length data_out)%nat ->
  Z.of_nat (length decoded) < SIZE_MAX ->
  exists l',
    ll_deserialize_step msg_info byte_stream_size i b
      (Scan true true false (Z.of_nat (length decoded))
            (reject_byte msg_info) prev
            (decoded ++ drop (length decoded) data_out))
    = Continue l'
    /\ decoding msg_info data_out (decoded ++ [b]) l'.
Proof.
  intros Hsize Hbuf Hmax.
  unfold ll_deserialize_step, decoding. simpl.
  rewrite store_decoded by done.
  rewrite (size_t_wrap_ok (Z.of_nat (length decoded) + 1))
    by (unfold size_t_ok; lia).
  rewrite (bool_decide_eq_false_2 (_ = size msg_info)) by lia.
  rewrite (bool_decide_eq_true_2 (reject_byte msg_info = reject_byte msg_info))
    by done.
  rewrite !andb_false_r. simpl.
  eexists; split; [done|]. simpl. rewrite length_app. simpl.
  repeat split; try lia.
  by repeat case_bool_decide.
Qed.

Lemma step_escaped_byte i b decoded l :
  decoding msg_info data_out decoded l ->
  Z.of_nat (length decoded) < size msg_info ->
  (length decoded < length data_out)%nat ->
  Z.of_nat (length decoded) < SIZE_MAX ->
  exists l',
    fold_bytes (ll_deserialize_step msg_info byte_stream_size) i l
               [reject_byte msg_info; b]
    = Continue l'
    /\ decoding msg_info data_out (decoded ++ [b]) l'.
Proof.
  intros Hl Hsize Hbuf Hmax.
  cbn [fold_bytes]. rewrite (step_reject_byte i decoded l) by done.
  destruct (step_literal_byte (i + 1) b decoded (byte l))
    as (l' & -> & Hl'); [done..|].
  by exists l'.
Qed.

Lemma step_begin_byte i :
  1 <= size msg_info ->
  ll_deserialize_step msg_info byte_stream_size i (begin_byte msg_info)
                      (scan_init msg_info data_out)
  = Continue (Scan true false false 0 (begin_byte msg_info)
                   (end_byte msg_info) data_out).
Proof.
  intros Hsize. destruct distinct as (Hbe & Hbr & Her).
  unfold ll_deserialize_step, scan_init. simpl.
  rewrite (bool_decide_eq_true_2 (begin_byte msg_info = begin_byte msg_info))
    by done.
  rewrite (bool_decide_eq_false_2 (end_byte msg_info = reject_byte msg_info))
    by done.
  rewrite (bool_decide_eq_false_2 (0 = size msg_info)) by lia.
  rewrite (bool_decide_eq_false_2 (begin_byte msg_info = end_byte msg_info))
    by done.
  rewrite (bool_decide_eq_false_2 (begin_byte msg_info = reject_byte msg_info))
    by done.
  done.
Qed.

Lemma fold_escaped_payload payload : forall i decoded l,
  decoding msg_info data_out decoded l ->
  Z.of_nat (length decoded + length payload) <= size msg_info ->
  (length decoded + length payload <= length data_out)%nat ->
  Z.of_nat (length decoded + length payload) <= SIZE_MAX ->
  exists l',
    fold_bytes (ll_deserialize_step msg_info byte_stream_size) i l
               (escaped_payload msg_info payload)
    = Continue l'
    /\ decoding msg_info data_out (decoded ++ payload) l'.
Proof.
  induction payload as [|b payload IH]; intros i decoded l Hl Hsize Hbuf Hmax.
  - exists l. by rewrite (right_id_L [] (++)).
  - cbn [escaped_payload length] in *.
    destruct (is_control_byte msg_info b) eqn:Hb.
    + destruct (step_escaped_byte i b decoded l) as (l1 & Hstep & Hl1);
        [done|lia..|].
      change (reject_byte msg_info :: b :: escaped_payload msg_info payload)
        with ([reject_byte msg_info; b] ++ escaped_payload msg_info payload).
      rewrite fold_bytes_app, Hstep.
      destruct (IH (i + Z.of_nat (length [reject_byte msg_info; b]))
                   (decoded ++ [b]) l1) as (l' & Hfold & Hl');
        [done|rewrite length_app; simpl; lia..|].
      exists l'. split; [done|].
      by rewrite (cons_middle b decoded payload), (assoc_L (++)).
    + destruct (step_plain_byte i b decoded l) as (l1 & Hstep & Hl1);
        [done|done|lia..|].
      cbn [fold_bytes]. rewrite Hstep.
      destruct (IH (i + 1) (decoded ++ [b]) l1) as (l' & Hfold & Hl');
        [done|rewrite length_app; simpl; lia..|].
      exists l'. split; [done|].
      by rewrite (cons_middle b decoded payload), (assoc_L (++)).
Qed.
End roundtrip.

(** Decoding the frame of a payload of one byte or more gives back the
    payload with [LL_STATUS_SUCCESS] and remainder 0. *)
Lemma roundtrip_wire_frame (msg_info : ll_message_info_t)
    (payload data_out : list uint8_t) (remainder : Z) :
  distinct_control_bytes msg_info ->
  Z.of_nat (length payload) = size msg_info ->
  1 <= size msg_info ->
  size msg_info <= Z.of_nat (length data_out) ->
  Z.of_nat (length (wire_frame msg_info payload)) <= SIZE_MAX ->
  ll_deserialize msg_info (Ptr (wire_frame msg_info payload))
                 (Z.of_nat (length (wire_frame msg_info payload)))
                 (Ptr data_out) (Ptr remainder)
  = Some (LL_STATUS_SUCCESS,
          Ptr (payload ++ drop (length payload) data_out), Ptr 0).
Proof.
  intros Hdistinct Hlen Hsize Hbuf Hmax.
  pose proof (wire_frame_length msg_info payload) as Hw.
  pose proof (count_control_bounds msg_info payload) as Hc.
  pose proof (escaped_payload_length msg_info payload) as He.
  set (n := Z.of_nat (length (wire_frame msg_info payload))) in *.
  unfold ll_deserialize, ll_deserialize_body.
  unfold n at 2. rewrite Nat2Z.id, for_loop_whole by done.
  unfold wire_frame. cbn [fold_bytes].
  rewrite step_begin_byte by done.
  rewrite fold_bytes_app.
  destruct (fold_escaped_payload msg_info n data_out Hdistinct payload
              (0 + 1) [] (Scan true false false 0 (begin_byte msg_info)
                               (end_byte msg_info) data_out))
    as (l & -> & Hl).
  { unfold decoding. simpl. destruct Hdistinct as (_ & Hbr & _).
    by rewrite bool_decide_eq_false_2. }
  { simpl. lia. }
  { simpl. lia. }
  { simpl. lia. }
  cbn [fold_bytes app] in *.
  destruct Hl as (Hopen & _ & _ & Hiter & Hout).
  rewrite step_payload_complete; [|lia|lia| |lia].
  - rewrite !bool_decide_eq_true_2 by (done || lia). by rewrite Hout.
  - unfold frame_open. by rewrite Hopen.
Qed.

(** Round trip for every message size but 0: [ll_serialize] into a buffer
    of [ll_sizeof_serialized] bytes, then [ll_deserialize] on that buffer
    with the same size as window, gives back the payload with
    [LL_STATUS_SUCCESS] and remainder 0; payloads made of [reject_byte]
    only are payloads like the others. *)
Theorem roundtrip_positive_size (msg_info : ll_message_info_t)
    (payload buf data_out : list uint8_t) (remainder : Z) :
  distinct_control_bytes msg_info ->
  Z.of_nat (length payload) = size msg_info ->
  1 <= size msg_info ->
  Z.of_nat (length data_out) = size msg_info ->
  size msg_info + 2 + count_control msg_info payload <= SIZE_MAX ->
  ll_sizeof_serialized msg_info (Ptr payload) = Some (Z.of_nat (length buf)) ->
  exists frame,
    ll_serialize msg_info (Ptr payload) (Ptr buf) = Some (Ptr frame)
    /\ ll_deserialize msg_info (Ptr frame) (Z.of_nat (length buf))
                      (Ptr data_out) (Ptr remainder)
       = Some (LL_STATUS_SUCCESS, Ptr payload, Ptr 0).
Proof.
  intros Hdistinct Hlen Hsize Hout Hmax Hn.
  pose proof (wire_frame_length msg_info payload) as Hw.
  pose proof (count_control_bounds msg_info payload) as Hc.
  rewrite ll_sizeof_serialized_eq in Hn by lia.
  rewrite size_t_wrap_ok in Hn by (unfold size_t_ok; lia).
  injection Hn as Hn.
  assert (length buf = length (wire_frame msg_info payload)) as Hbuf by lia.
  exists (wire_frame msg_info payload). split.
  - rewrite ll_serialize_fits by lia.
    by rewrite <- Hbuf, drop_all, (right_id_L [] (++)).
  - rewrite Hbuf, roundtrip_wire_frame by (done || lia).
    rewrite drop_ge by lia. by rewrite (right_id_L [] (++)).
Qed.

Lemma roundtrip_positive_size_witness :
  exists frame,
    ll_serialize example_info (Ptr (replicate 16 xcc)) (Ptr (zeros 34))
      = Some (Ptr frame)
    /\ ll_deserialize example_info (Ptr frame) (Z.of_nat (length (zeros 34)))
                      (Ptr (zeros 16)) (Ptr 7)
       = Some (LL_STATUS_SUCCESS, Ptr (replicate 16 xcc), Ptr 0).
Proof.
  apply (roundtrip_positive_size example_info (replicate 16 xcc) (zeros 34)
           (zeros 16) 7).
  - repeat split; discriminate.
  - reflexivity.
  - vm_compute. discriminate.
  - reflexivity.
  - vm_compute. discriminate.
  - reflexivity.
Defined.

(** C1 (round trip).  The round trip holds for every message size from 1 up
    ([roundtrip_positive_size]) and fails for the empty message: with
    [size = 0] the encoder produces the two-byte frame [begin_byte],
    [end_byte], and the scanner, which tests [message_iter == size] on the
    opening delimiter itself, answers [LL_STATUS_MESSAGE_TOO_LONG] at
    offset 0 instead of [LL_STATUS_SUCCESS]. *)
Theorem roundtrip_empty_message_rejected :
  distinct_control_bytes empty_info
  /\ ll_sizeof_serialized empty_info (Ptr []) = Some 2
  /\ ll_serialize empty_info (Ptr []) (Ptr [x00; x00]) = Some (Ptr [xaa; xbb])
  /\ ll_deserialize empty_info (Ptr [xaa; xbb]) 2 (Ptr []) (Ptr 7)
     = Some (LL_STATUS_MESSAGE_TOO_LONG, Ptr [], Ptr 0).
Proof.
  split; [repeat split; discriminate|].
  repeat split.
Qed.

(** C6 (resuming after [LL_STATUS_NO_ENOUGH_BYTES]).  With message size 2,
    the window [AA CC BB 11 BB], which is the frame [ll_serialize] makes of
    the payload [BB 11], decodes to [BB 11] in one call.  Cut after three
    bytes, the first call reports [LL_STATUS_NO_ENOUGH_BYTES] with
    remainder 1, which is the offset of the escape byte and not of the
    opening delimiter; the call on the window from offset 1 on finds no
    frame at all, whatever the output buffer holds. *)
Theorem resume_after_escape_diverges (buf : list uint8_t) (rem : Z) :
  ll_serialize pair_info (Ptr [xbb; x11]) (Ptr (zeros 5))
    = Some (Ptr [xaa; xcc; xbb; x11; xbb])
  /\ ll_deserialize pair_info (Ptr (take 3 [xaa; xcc; xbb; x11; xbb])) 3
                    (Ptr [x00; x00]) (Ptr 0)
    = Some (LL_STATUS_NO_ENOUGH_BYTES, Ptr [xbb; x00], Ptr 1)
  /\ ll_deserialize pair_info (Ptr (drop 1 [xaa; xcc; xbb; x11; xbb])) 4
                    (Ptr buf) (Ptr rem)
    = Some (LL_STATUS_NO_MESSAGE, Ptr buf, Ptr 4)
  /\ ll_deserialize pair_info (Ptr [xaa; xcc; xbb; x11; xbb]) 5
                    (Ptr [x00; x00]) (Ptr 0)
    = Some (LL_STATUS_SUCCESS, Ptr [xbb; x11], Ptr 0).
Proof. repeat split. Qed.

(** * Further properties of the scanner and of the encoder *)

(** ** Windows seen as lists of bytes *)

Lemma ll_deserialize_fold msg_info (window : list uint8_t) byte_stream_size
    data_out remainder :
  Z.of_nat (length window) = byte_stream_size ->
  byte_stream_size <= SIZE_MAX ->
  ll_deserialize msg_info (Ptr window) byte_stream_size (Ptr data_out)
                 (Ptr remainder)
  = match fold_bytes (ll_deserialize_step msg_info byte_stream_size) 0
                     (scan_init msg_info data_out) window with
    | Return (status, buf', r) => Some (status, Ptr buf', Ptr r)
    | Continue l =>
        if message_opened l
        then Some (LL_STATUS_NO_ENOUGH_BYTES, Ptr (out l),
                   Ptr (size_t_wrap
                          (size_t_wrap (byte_stream_size - message_iter l)
                           - 1)))
        else Some (LL_STATUS_NO_MESSAGE, Ptr (out l), Ptr byte_stream_size)
    | Undefined => None
    end.
Proof.
  intros Hlen Hmax. unfold ll_deserialize, ll_deserialize_body.
  by rewrite <- Hlen, Nat2Z.id, for_loop_whole by lia.
Qed.

Lemma default_last_cons (a b : uint8_t) (bytes : list uint8_t) :
  default a (last (b :: bytes)) = default b (last bytes).
Proof. rewrite last_cons. by destruct (last bytes). Qed.

Lemma fold_bytes_last_byte msg_info byte_stream_size (bytes : list uint8_t) :
  forall i l l',
    fold_bytes (ll_deserialize_step msg_info byte_stream_size) i l bytes
      = Continue l' ->
    byte l' = default (byte l) (last bytes).
Proof.
  induction bytes as [|b bytes IH]; intros i l l'.
  - by intros [= <-].
  - cbn [fold_bytes].
    destruct (ll_deserialize_step _ _ i b l) as [l1| |] eqn:Hstep; [|done..].
    intros Hfold. apply IH in Hfold. rewrite Hfold.
    assert (byte l1 = b) as ->.
    { revert Hstep. destruct l as [opened rej ign iter byt prev o].
      unfold ll_deserialize_step, store. simpl.
      repeat first [ case_bool_decide | case_match ]; by intros [= <-]. }
    by rewrite default_last_cons.
Qed.

Section idle_scan.
Variable msg_info : ll_message_info_t.
Variable byte_stream_size : Z.
Variable data_out : list uint8_t.

Lemma scan_init_idle :
  idle data_out (end_byte msg_info) (scan_init msg_info data_out).
Proof. by repeat split. Qed.

Lemma step_idle i b b0 l :
  idle data_out b0 l ->
  bool_decide (b = begin_byte msg_info)
    && negb (bool_decide (b0 = reject_byte msg_info)) = false ->
  exists l',
    ll_deserialize_step msg_info byte_stream_size i b l = Continue l'
    /\ idle data_out b l'.
Proof.
  destruct l as [opened rej ign iter byt prev o]. unfold idle. simpl.
  intros (-> & -> & -> & -> & -> & ->) Hb.
  unfold ll_deserialize_step. simpl. rewrite Hb. simpl.
  eexists. split; [done|]. by repeat split.
Qed.

Lemma fold_idle (window : list uint8_t) : forall i b0 l,
  idle data_out b0 l ->
  has_opener msg_info b0 window = false ->
  exists l',
    fold_bytes (ll_deserialize_step msg_info byte_stream_size) i l window
      = Continue l'
    /\ idle data_out (default b0 (last window)) l'.
Proof.
  induction window as [|b window IH]; intros i b0 l Hl Hno.
  - by exists l.
  - cbn [has_opener fold_bytes] in *.
    apply orb_false_iff in Hno as [Hb Hno].
    destruct (step_idle i b b0 l Hl Hb) as (l1 & -> & Hl1).
    destruct (IH (i + 1) b l1 Hl1 Hno) as (l' & Hfold & Hl').
    exists l'. split; [done|]. by rewrite default_last_cons.
Qed.

Lemma step_status i b l status buf' r :
  ll_deserialize_step msg_info byte_stream_size i b l
    = Return (status, buf', r) ->
  scan_status status.
Proof.
  destruct l as [opened rej ign iter byt prev o].
  unfold ll_deserialize_step, store, scan_status. simpl.
  repeat first [ case_bool_decide | case_match ];
    intros [= <- <- <-]; tauto.
Qed.

Lemma step_stays_open i b l l' :
  message_opened l = true ->
  ll_deserialize_step msg_info byte_stream_size i b l = Continue l' ->
  message_opened l' = true.
Proof.
  destruct l as [opened rej ign iter byt prev o]. simpl. intros ->.
  unfold ll_deserialize_step, store. simpl.
  repeat first [ case_bool_decide | case_match ]; by intros [= <-].
Qed.

Lemma step_opens i b b0 l l' :
  idle data_out b0 l ->
  bool_decide (b = begin_byte msg_info)
    && negb (bool_decide (b0 = reject_byte msg_info)) = true ->
  ll_deserialize_step msg_info byte_stream_size i b l = Continue l' ->
  message_opened l' = true.
Proof.
  destruct l as [opened rej ign iter byt prev o]. unfold idle. simpl.
  intros (-> & -> & -> & -> & -> & ->) Hb.
  unfold ll_deserialize_step, store. simpl. rewrite Hb. simpl.
  repeat first [ case_bool_decide | case_match ]; by intros [= <-].
Qed.

Lemma fold_stays_open (window : list uint8_t) : forall i l,
  message_opened l = true ->
  ends_open
    (fold_bytes (ll_deserialize_step msg_info byte_stream_size) i l window).
Proof.
  induction window as [|b window IH]; intros i l Hl; [done|].
  cbn [fold_bytes].
  destruct (ll_deserialize_step _ _ i b l) as [l1|[[status buf'] r]|] eqn:Hstep.
  - apply IH. by eapply step_stays_open.
  - simpl. by eapply step_status.
  - done.
Qed.

Lemma fold_opener (window : list uint8_t) : forall i b0 l,
  idle data_out b0 l ->
  has_opener msg_info b0 window = true ->
  ends_open
    (fold_bytes (ll_deserialize_step msg_info byte_stream_size) i l window).
Proof.
  induction window as [|b window IH]; intros i b0 l Hl Hop; [done|].
  cbn [has_opener fold_bytes] in *.
  destruct (bool_decide (b = begin_byte msg_info)
            && negb (bool_decide (b0 = reject_byte msg_info))) eqn:Hb.
  - destruct (ll_deserialize_step _ _ i b l) as [l1|[[status buf'] r]|]
      eqn:Hstep.
    + apply fold_stays_open. by eapply step_opens.
    + simpl. by eapply step_status.
    + done.
  - destruct (step_idle i b b0 l Hl Hb) as (l1 & -> & Hl1).
    by apply (IH (i + 1) b l1).
Qed.
End idle_scan.

(** ** Windows without a frame, and what the scanner reads *)

(** X1.  [ll_deserialize] answers [LL_STATUS_NO_MESSAGE] exactly when no
    byte of the window opens a frame, that is when every [begin_byte] of the
    window comes right after a [reject_byte]; it then stores
    [byte_stream_size] in [*remainder] and leaves [data_out] as it was,
    whatever its size. *)
Theorem no_message_iff_no_opener (msg_info : ll_message_info_t)
    (window data_out : list uint8_t) (byte_stream_size remainder : Z) :
  Z.of_nat (length window) = byte_stream_size ->
  byte_stream_size <= SIZE_MAX ->
  (has_opener msg_info (end_byte msg_info) window = false ->
   ll_deserialize msg_info (Ptr window) byte_stream_size (Ptr data_out)
                  (Ptr remainder)
   = Some (LL_STATUS_NO_MESSAGE, Ptr data_out, Ptr byte_stream_size))
  /\ (forall buf' r,
        ll_deserialize msg_info (Ptr window) byte_stream_size (Ptr data_out)
                       (Ptr remainder)
        = Some (LL_STATUS_NO_MESSAGE, buf', r) ->
        has_opener msg_info (end_byte msg_info) window = false).
Proof.
  intros Hlen Hmax. rewrite ll_deserialize_fold by done. split.
  - intros Hno.
    destruct (fold_idle msg_info byte_stream_size data_out window 0
                (end_byte msg_info) (scan_init msg_info data_out))
      as (l & -> & Hl); [apply scan_init_idle|done|].
    destruct Hl as (-> & _ & _ & _ & _ & ->). done.
  - intros buf' r Hcall.
    destruct (has_opener msg_info (end_byte msg_info) window) eqn:Hop; [|done].
    pose proof (fold_opener msg_info byte_stream_size data_out window 0
                  (end_byte msg_info) (scan_init msg_info data_out)
                  (scan_init_idle msg_info data_out) Hop) as Hends.
    destruct (fold_bytes _ 0 _ window) as [l|[[status buf0] r0]|]; simpl in *.
    + by rewrite Hends in Hcall.
    + injection Hcall as -> _ _. by destruct Hends as [?|[?|?]].
    + done.
Qed.

Lemma no_message_iff_no_opener_witness :
  (has_opener example_info (end_byte example_info) [x01; xcc; xaa; x02]
     = false ->
   ll_deserialize example_info (Ptr [x01; xcc; xaa; x02]) 4 (Ptr []) (Ptr 9)
   = Some (LL_STATUS_NO_MESSAGE, Ptr [], Ptr 4))
  /\ (forall buf' r,
        ll_deserialize example_info (Ptr [x01; xcc; xaa; x02]) 4 (Ptr [])
                       (Ptr 9)
        = Some (LL_STATUS_NO_MESSAGE, buf', r) ->
        has_opener example_info (end_byte example_info)
                   [x01; xcc; xaa; x02] = false).
Proof.
  apply (no_message_iff_no_opener example_info [x01; xcc; xaa; x02] [] 4 9).
  - reflexivity.
  - vm_compute. discriminate.
Defined.

(** X2.  [ll_deserialize] reads no byte at or beyond offset
    [byte_stream_size]: what follows the window in the object
    [byte_stream] points into has no influence on the result. *)
Theorem bytes_beyond_window_ignored (msg_info : ll_message_info_t)
    (window extra data_out : list uint8_t) (remainder : Z) :
  Z.of_nat (length window) <= SIZE_MAX ->
  ll_deserialize msg_info (Ptr (window ++ extra)) (Z.of_nat (length window))
                 (Ptr data_out) (Ptr remainder)
  = ll_deserialize msg_info (Ptr window) (Z.of_nat (length window))
                   (Ptr data_out) (Ptr remainder).
Proof.
  intros Hmax. unfold ll_deserialize, ll_deserialize_body.
  rewrite Nat2Z.id, for_loop_whole by done.
  pose proof (for_loop_fold_bytes
                (ll_deserialize_step msg_info (Z.of_nat (length window)))
                [] window extra (scan_init msg_info data_out)) as H.
  cbn [app length] in H. change (Z.of_nat 0) with 0 in H.
  by rewrite H by lia.
Qed.

Lemma bytes_beyond_window_ignored_witness :
  ll_deserialize pair_info (Ptr ([xaa; x01; x02] ++ [xbb; x07]))
                 (Z.of_nat (length [xaa; x01; x02]))
                 (Ptr [x00; x00]) (Ptr 0)
  = ll_deserialize pair_info (Ptr [xaa; x01; x02])
                   (Z.of_nat (length [xaa; x01; x02]))
                   (Ptr [x00; x00]) (Ptr 0).
Proof.
  apply (bytes_beyond_window_ignored pair_info [xaa; x01; x02] [xbb; x07]
           [x00; x00] 0).
  vm_compute. discriminate.
Defined.

Lemma for_loop_status msg_info byte_stream byte_stream_size (trips : nat) :
  forall i l status buf' r,
    for_loop (ll_deserialize_body msg_info byte_stream byte_stream_size)
             trips i l = Return (status, buf', r) ->
    scan_status status.
Proof.
  induction trips as [|trips IH]; intros i l status buf' r; [done|].
  simpl. unfold ll_deserialize_body at 1, reading.
  destruct (load byte_stream i) as [b|]; [|done].
  destruct (ll_deserialize_step _ _ i b l) as [l1|[[status1 buf1] r1]|]
    eqn:Hstep; [|intros [= <- <- <-]; by eapply step_status|done].
  apply IH.
Qed.

(** X3.  Whenever [ll_deserialize] returns, its status is one of the six
    documented ones, never [LL_STATUS_ENUM_SIZE], and it is
    [LL_STATUS_BAD_PARAMS] exactly when one of the three pointers is
    null. *)
Theorem deserialize_status_range (msg_info : ll_message_info_t)
    (byte_stream data_out : ptr (list uint8_t)) (byte_stream_size : Z)
    (remainder : ptr Z) (status : ll_status_t)
    (data_out' : ptr (list uint8_t)) (remainder' : ptr Z) :
  ll_deserialize msg_info byte_stream byte_stream_size data_out remainder
    = Some (status, data_out', remainder') ->
  status <> LL_STATUS_ENUM_SIZE
  /\ (status = LL_STATUS_BAD_PARAMS
      <-> byte_stream = NULL \/ data_out = NULL \/ remainder = NULL).
Proof.
  intros Hcall.
  assert (forall A (x : A), Ptr x = NULL <-> False) as Hptr by (by split).
  destruct byte_stream as [|window];
    [injection Hcall as <- _ _; split; [done|tauto]|].
  destruct data_out as [|buf];
    [injection Hcall as <- _ _; split; [done|tauto]|].
  destruct remainder as [|rem];
    [injection Hcall as <- _ _; split; [done|tauto]|].
  rewrite !Hptr. unfold ll_deserialize in Hcall.
  destruct (for_loop _ _ 0 _) as [l|[[status0 buf0] r0]|] eqn:Hloop; [| |done].
  - destruct (message_opened l); injection Hcall as <- _ _;
      (split; [done|]); split; (done || tauto).
  - injection Hcall as <- _ _. apply for_loop_status in Hloop.
    destruct Hloop as [-> | [-> | ->]];
      (split; [done|]); split; (done || tauto).
Qed.

Lemma deserialize_status_range_witness :
  LL_STATUS_MESSAGE_TOO_SHORT <> LL_STATUS_ENUM_SIZE
  /\ (LL_STATUS_MESSAGE_TOO_SHORT = LL_STATUS_BAD_PARAMS
      <-> Ptr [x07; xaa; x01; xbb; x07] = NULL \/ Ptr [x00; x00] = NULL
          \/ Ptr 0 = NULL).
Proof.
  apply (deserialize_status_range pair_info (Ptr [x07; xaa; x01; xbb; x07])
           (Ptr [x00; x00]) 5 (Ptr 0)
           LL_STATUS_MESSAGE_TOO_SHORT (Ptr [x01; x00]) (Ptr 4)).
  reflexivity.
Defined.

(** ** Frames among other bytes *)

Lemma escaped_payload_last msg_info (payload : list uint8_t) :
  last (escaped_payload msg_info payload) = last payload.
Proof.
  induction payload as [|b payload IH]; [done|].
  cbn [escaped_payload].
  destruct (is_control_byte msg_info b);
    rewrite !last_cons, IH; by destruct (last payload).
Qed.

Section stream.
Variable msg_info : ll_message_info_t.
Variable byte_stream_size : Z.
Variable data_out : list uint8_t.
Hypothesis distinct : distinct_control_bytes msg_info.

Lemma step_begin_idle i b0 l :
  idle data_out b0 l ->
  b0 <> reject_byte msg_info ->
  1 <= size msg_info ->
  exists l',
    ll_deserialize_step msg_info byte_stream_size i (begin_byte msg_info) l
      = Continue l'
    /\ decoding msg_info data_out [] l'.
Proof.
  destruct l as [opened rej ign iter byt prev o]. unfold idle. simpl.
  intros (-> & -> & -> & -> & -> & ->) Hb0 Hsize.
  destruct distinct as (Hbe & Hbr & Her).
  unfold ll_deserialize_step, decoding. simpl.
  rewrite (bool_decide_eq_true_2 (begin_byte msg_info = begin_byte msg_info))
    by done.
  rewrite (bool_decide_eq_false_2 (b0 = reject_byte msg_info)) by done.
  rewrite (bool_decide_eq_false_2 (0 = size msg_info)) by lia.
  rewrite (bool_decide_eq_false_2 (begin_byte msg_info = end_byte msg_info))
    by done.
  rewrite (bool_decide_eq_false_2 (begin_byte msg_info = reject_byte msg_info))
    by done.
  simpl. eexists. split; [done|]. simpl.
  rewrite bool_decide_eq_false_2 by done. by repeat split.
Qed.

(** The scan of some bytes that open no frame, an opening delimiter and the
    escaped form of [payload]: the payload is in [data_out] and the frame is
    still open. *)
Lemma fold_stream_payload (noise payload : list uint8_t) :
  has_opener msg_info (end_byte msg_info) noise = false ->
  last noise <> Some (reject_byte msg_info) ->
  1 <= size msg_info ->
  Z.of_nat (length payload) <= size msg_info ->
  (length payload <= length data_out)%nat ->
  Z.of_nat (length payload) <= SIZE_MAX ->
  exists l,
    fold_bytes (ll_deserialize_step msg_info byte_stream_size) 0
               (scan_init msg_info data_out)
               (noise ++ begin_byte msg_info
                  :: escaped_payload msg_info payload)
    = Continue l
    /\ decoding msg_info data_out payload l
    /\ byte l = default (begin_byte msg_info) (last payload).
Proof.
  intros Hnoise Hlast Hsize Hlen Hbuf Hmax.
  destruct (fold_idle msg_info byte_stream_size data_out noise 0
              (end_byte msg_info) (scan_init msg_info data_out))
    as (l0 & Hfold0 & Hl0); [apply scan_init_idle|done|].
  destruct (step_begin_idle (0 + Z.of_nat (length noise))
              (default (end_byte msg_info) (last noise)) l0)
    as (l1 & Hstep1 & Hl1); [done| |done|].
  { destruct distinct as (_ & _ & Her).
    destruct (last noise) as [b|]; simpl; congruence. }
  destruct (fold_escaped_payload msg_info byte_stream_size data_out distinct
              payload (0 + Z.of_nat (length noise) + 1) [] l1)
    as (l & Hfold & Hl); [done|simpl; lia..|].
  exists l. rewrite fold_bytes_app, Hfold0. cbn [fold_bytes].
  rewrite Hstep1. split; [done|]. split; [done|].
  apply fold_bytes_last_byte in Hfold. rewrite Hfold, escaped_payload_last.
  assert (byte l1 = begin_byte msg_info) as ->; [|done].
  revert Hstep1. destruct l0 as [opened rej ign iter byt prev o].
  unfold ll_deserialize_step, store. simpl.
  repeat first [ case_bool_decide | case_match ]; by intros [= <-].
Qed.
End stream.

Lemma fold_frame_in_stream msg_info byte_stream_size
    (noise payload rest data_out : list uint8_t) :
  distinct_control_bytes msg_info ->
  Z.of_nat (length payload) = size msg_info ->
  1 <= size msg_info ->
  size msg_info <= Z.of_nat (length data_out) ->
  has_opener msg_info (end_byte msg_info) noise = false ->
  last noise <> Some (reject_byte msg_info) ->
  byte_stream_size <= SIZE_MAX ->
  Z.of_nat (length noise + length (wire_frame msg_info payload))
    <= byte_stream_size ->
  fold_bytes (ll_deserialize_step msg_info byte_stream_size) 0
             (scan_init msg_info data_out)
             (noise ++ wire_frame msg_info payload ++ rest)
  = Return (LL_STATUS_SUCCESS, payload ++ drop (length payload) data_out,
            if bool_decide
                 (Z.of_nat (length noise
                            + length (wire_frame msg_info payload))
                  = byte_stream_size)
            then 0
            else Z.of_nat (length noise
                           + length (wire_frame msg_info payload))).
Proof.
  intros Hdistinct Hlen Hsize Hbuf Hnoise Hlast Hmax Hn.
  pose proof (wire_frame_length msg_info payload) as Hw.
  pose proof (escaped_payload_length msg_info payload) as He.
  pose proof (count_control_bounds msg_info payload) as Hc.
  destruct (fold_stream_payload msg_info byte_stream_size data_out Hdistinct
              noise payload) as (l & Hfold & Hl & _); [done|done|lia..|].
  unfold wire_frame in *.
  replace (noise ++ (begin_byte msg_info
                     :: escaped_payload msg_info payload
                        ++ [end_byte msg_info]) ++ rest)
    with ((noise ++ begin_byte msg_info :: escaped_payload msg_info payload)
          ++ end_byte msg_info :: rest)
    by (by simplify_list_eq).
  rewrite fold_bytes_app, Hfold. cbn [fold_bytes].
  destruct Hl as (Hopen & _ & _ & Hiter & Hout).
  rewrite length_app in *. cbn [length] in *. rewrite length_app in *.
  cbn [length] in *.
  rewrite step_payload_complete; [|lia|lia| |lia].
  - rewrite (bool_decide_eq_true_2 (end_byte msg_info = end_byte msg_info))
      by done.
    rewrite Hout. do 2 f_equal.
    repeat case_bool_decide; lia.
  - unfold frame_open. by rewrite Hopen.
Qed.

(** X4.  A frame is found among other bytes: when the bytes before it open
    no frame and do not end in [reject_byte], [ll_deserialize] returns
    [LL_STATUS_SUCCESS] with the payload in [data_out], whatever follows the
    frame; [*remainder] is the offset just past the frame's [end_byte], or 0
    when the frame ends the window. *)
Theorem frame_in_stream (msg_info : ll_message_info_t)
    (noise payload rest data_out : list uint8_t) (remainder : Z) :
  distinct_control_bytes msg_info ->
  Z.of_nat (length payload) = size msg_info ->
  1 <= size msg_info ->
  size msg_info <= Z.of_nat (length data_out) ->
  has_opener msg_info (end_byte msg_info) noise = false ->
  last noise <> Some (reject_byte msg_info) ->
  Z.of_nat (length (noise ++ wire_frame msg_info payload ++ rest))
    <= SIZE_MAX ->
  ll_deserialize msg_info
                 (Ptr (noise ++ wire_frame msg_info payload ++ rest))
                 (Z.of_nat
                    (length (noise ++ wire_frame msg_info payload ++ rest)))
                 (Ptr data_out) (Ptr remainder)
  = Some (LL_STATUS_SUCCESS,
          Ptr (payload ++ drop (length payload) data_out),
          Ptr (match rest with
               | [] => 0
               | _ :: _ =>
                   Z.of_nat (length noise
                             + length (wire_frame msg_info payload))
               end)).
Proof.
  intros Hdistinct Hlen Hsize Hbuf Hnoise Hlast Hmax.
  rewrite ll_deserialize_fold by done.
  rewrite fold_frame_in_stream; try done.
  - do 3 f_equal. rewrite !length_app.
    destruct rest; cbn [length]; case_bool_decide; (done || lia).
  - rewrite !length_app. lia.
Qed.

Lemma frame_in_stream_witness :
  ll_deserialize example_info
                 (Ptr ([x01; xbb; x02]
                       ++ wire_frame example_info mixed_payload
                       ++ [xaa; x03]))
                 (Z.of_nat
                    (length ([x01; xbb; x02]
                             ++ wire_frame example_info mixed_payload
                             ++ [xaa; x03])))
                 (Ptr (zeros 16)) (Ptr 0)
  = Some (LL_STATUS_SUCCESS,
          Ptr (mixed_payload ++ drop (length mixed_payload) (zeros 16)),
          Ptr (match [xaa; x03] with
               | [] => 0
               | _ :: _ =>
                   Z.of_nat (length [x01; xbb; x02]
                             + length (wire_frame example_info mixed_payload))
               end)).
Proof.
  apply (frame_in_stream example_info [x01; xbb; x02] mixed_payload
           [xaa; x03] (zeros 16) 0).
  - repeat split; discriminate.
  - reflexivity.
  - vm_compute. discriminate.
  - vm_compute. discriminate.
  - reflexivity.
  - discriminate.
  - vm_compute. discriminate.
Defined.

(** X5.  For distinct control bytes, a message size from 1 up and an
    output buffer of exactly [size] bytes: two frames sent one after the
    other, with nothing before, between or after them, are decoded in turn.
    The call on the whole window returns the first payload and, as
    remainder, the offset of the second frame; the call on the window from
    that offset on, with the same output buffer, returns the second payload
    and remainder 0. *)
Theorem consecutive_frames (msg_info : ll_message_info_t)
    (payload1 payload2 data_out : list uint8_t) (remainder : Z) :
  distinct_control_bytes msg_info ->
  Z.of_nat (length payload1) = size msg_info ->
  Z.of_nat (length payload2) = size msg_info ->
  1 <= size msg_info ->
  Z.of_nat (length data_out) = size msg_info ->
  Z.of_nat (length (wire_frame msg_info payload1
                    ++ wire_frame msg_info payload2)) <= SIZE_MAX ->
  ll_deserialize msg_info
    (Ptr (wire_frame msg_info payload1 ++ wire_frame msg_info payload2))
    (Z.of_nat (length (wire_frame msg_info payload1
                       ++ wire_frame msg_info payload2)))
    (Ptr data_out) (Ptr remainder)
  = Some (LL_STATUS_SUCCESS, Ptr payload1,
          Ptr (Z.of_nat (length (wire_frame msg_info payload1))))
  /\ ll_deserialize msg_info
       (Ptr (drop (length (wire_frame msg_info payload1))
                  (wire_frame msg_info payload1
                   ++ wire_frame msg_info payload2)))
       (Z.of_nat (length (wire_frame msg_info payload1
                          ++ wire_frame msg_info payload2))
        - Z.of_nat (length (wire_frame msg_info payload1)))
       (Ptr payload1)
       (Ptr (Z.of_nat (length (wire_frame msg_info payload1))))
     = Some (LL_STATUS_SUCCESS, Ptr payload2, Ptr 0).
Proof.
  intros Hdistinct Hlen1 Hlen2 Hsize Hbuf Hmax.
  rewrite length_app in *. split.
  - rewrite ll_deserialize_fold by (by rewrite ?length_app).
    pose proof (fold_frame_in_stream msg_info
                  (Z.of_nat (length (wire_frame msg_info payload1)
                             + length (wire_frame msg_info payload2)))
                  [] payload1 (wire_frame msg_info payload2) data_out) as H.
    cbn [app length Nat.add] in H. rewrite H; try (done || lia).
    rewrite drop_ge, (right_id_L [] (++)) by lia.
    rewrite bool_decide_eq_false_2; [done|].
    unfold wire_frame. cbn [length]. lia.
  - rewrite drop_app_length.
    replace (Z.of_nat (length (wire_frame msg_info payload1)
                       + length (wire_frame msg_info payload2))
             - Z.of_nat (length (wire_frame msg_info payload1)))
      with (Z.of_nat (length (wire_frame msg_info payload2))) by lia.
    rewrite ll_deserialize_fold by (done || lia).
    pose proof (fold_frame_in_stream msg_info
                  (Z.of_nat (length (wire_frame msg_info payload2)))
                  [] payload2 [] payload1) as H.
    cbn [app length Nat.add] in H. rewrite (right_id_L [] (++)) in H.
    rewrite H; try (done || lia).
    rewrite drop_ge, (right_id_L [] (++)) by lia.
    by rewrite bool_decide_eq_true_2.
Qed.

Lemma consecutive_frames_witness :
  ll_deserialize example_info
    (Ptr (wire_frame example_info mixed_payload
          ++ wire_frame example_info plain_payload))
    (Z.of_nat (length (wire_frame example_info mixed_payload
                       ++ wire_frame example_info plain_payload)))
    (Ptr (zeros 16)) (Ptr 0)
  = Some (LL_STATUS_SUCCESS, Ptr mixed_payload,
          Ptr (Z.of_nat (length (wire_frame example_info mixed_payload))))
  /\ ll_deserialize example_info
       (Ptr (drop (length (wire_frame example_info mixed_payload))
                  (wire_frame example_info mixed_payload
                   ++ wire_frame example_info plain_payload)))
       (Z.of_nat (length (wire_frame example_info mixed_payload
                          ++ wire_frame example_info plain_payload))
        - Z.of_nat (length (wire_frame example_info mixed_payload)))
       (Ptr mixed_payload)
       (Ptr (Z.of_nat (length (wire_frame example_info mixed_payload))))
     = Some (LL_STATUS_SUCCESS, Ptr plain_payload, Ptr 0).
Proof.
  apply (consecutive_frames example_info mixed_payload plain_payload
           (zeros 16) 0).
  - repeat split; discriminate.
  - reflexivity.
  - reflexivity.
  - vm_compute. discriminate.
  - reflexivity.
  - vm_compute. discriminate.
Defined.

(** X6.  Message size control, too long.  For distinct control bytes, a
    message size from 1 up and an output buffer of [size] bytes or more: if
    the bytes before the frame open no frame and do not end in
    [reject_byte], and the opening delimiter and the escaped form of [size]
    payload bytes are followed by a byte other than [end_byte],
    [ll_deserialize] returns [LL_STATUS_MESSAGE_TOO_LONG]; [data_out] holds
    the payload and [*remainder] is the offset of that byte, where
    [end_byte] should have been. *)
Theorem missing_end_byte_too_long (msg_info : ll_message_info_t)
    (noise payload rest data_out : list uint8_t) (x : uint8_t)
    (remainder : Z) :
  distinct_control_bytes msg_info ->
  Z.of_nat (length payload) = size msg_info ->
  1 <= size msg_info ->
  size msg_info <= Z.of_nat (length data_out) ->
  has_opener msg_info (end_byte msg_info) noise = false ->
  last noise <> Some (reject_byte msg_info) ->
  x <> end_byte msg_info ->
  Z.of_nat (length (noise ++ begin_byte msg_info
                      :: escaped_payload msg_info payload ++ x :: rest))
    <= SIZE_MAX ->
  ll_deserialize msg_info
    (Ptr (noise ++ begin_byte msg_info
            :: escaped_payload msg_info payload ++ x :: rest))
    (Z.of_nat (length (noise ++ begin_byte msg_info
                         :: escaped_payload msg_info payload ++ x :: rest)))
    (Ptr data_out) (Ptr remainder)
  = Some (LL_STATUS_MESSAGE_TOO_LONG,
          Ptr (payload ++ drop (length payload) data_out),
          Ptr (Z.of_nat (length noise) + 1
               + Z.of_nat (length (escaped_payload msg_info payload)))).
Proof.
  intros Hdistinct Hlen Hsize Hbuf Hnoise Hlast Hx Hmax.
  rewrite ll_deserialize_fold by done.
  pose proof (escaped_payload_length msg_info payload) as He.
  pose proof (count_control_bounds msg_info payload) as Hc.
  set (n := Z.of_nat
              (length (noise ++ begin_byte msg_info
                         :: escaped_payload msg_info payload ++ x :: rest)))
    in *.
  assert (n = Z.of_nat (length noise) + 1
              + Z.of_nat (length (escaped_payload msg_info payload)) + 1
              + Z.of_nat (length rest)) as Hn.
  { unfold n. rewrite length_app. cbn [length]. rewrite length_app.
    cbn [length]. lia. }
  destruct (fold_stream_payload msg_info n data_out Hdistinct noise payload)
    as (l & Hfold & Hl & _); [done|done|lia..|].
  replace (noise ++ begin_byte msg_info
             :: escaped_payload msg_info payload ++ x :: rest)
    with ((noise ++ begin_byte msg_info :: escaped_payload msg_info payload)
          ++ x :: rest)
    by (by simplify_list_eq).
  rewrite fold_bytes_app, Hfold. cbn [fold_bytes].
  destruct Hl as (Hopen & _ & _ & Hiter & Hout).
  rewrite length_app. cbn [length].
  rewrite step_payload_complete; [|lia|lia| |lia].
  - rewrite bool_decide_eq_false_2 by done. rewrite Hout.
    do 3 f_equal. lia.
  - unfold frame_open. by rewrite Hopen.
Qed.

Lemma missing_end_byte_too_long_witness :
  ll_deserialize pair_info
    (Ptr ([x07] ++ begin_byte pair_info
            :: escaped_payload pair_info [xbb; x11] ++ x12 :: [xbb]))
    (Z.of_nat (length ([x07] ++ begin_byte pair_info
                         :: escaped_payload pair_info [xbb; x11]
                            ++ x12 :: [xbb])))
    (Ptr [x00; x00]) (Ptr 0)
  = Some (LL_STATUS_MESSAGE_TOO_LONG,
          Ptr ([xbb; x11] ++ drop (length [xbb; x11]) [x00; x00]),
          Ptr (Z.of_nat (length [x07]) + 1
               + Z.of_nat (length (escaped_payload pair_info [xbb; x11])))).
Proof.
  apply (missing_end_byte_too_long pair_info [x07] [xbb; x11] [xbb]
           [x00; x00] x12 0).
  - repeat split; discriminate.
  - reflexivity.
  - vm_compute. discriminate.
  - vm_compute. discriminate.
  - reflexivity.
  - discriminate.
  - discriminate.
  - vm_compute. discriminate.
Defined.

(** X7.  Message size control, too short.  For distinct control bytes and
    an output buffer of [size] bytes or more: if the bytes before the frame
    open no frame and do not end in [reject_byte], a frame that carries
    fewer than [size] payload bytes, the last of which is not
    [reject_byte], makes [ll_deserialize] return
    [LL_STATUS_MESSAGE_TOO_SHORT]; [data_out] holds the bytes the frame
    carried and [*remainder] is the offset just past the frame's
    [end_byte], whatever follows. *)
Theorem short_frame_too_short (msg_info : ll_message_info_t)
    (noise payload rest data_out : list uint8_t) (remainder : Z) :
  distinct_control_bytes msg_info ->
  Z.of_nat (length payload) < size msg_info ->
  last payload <> Some (reject_byte msg_info) ->
  size msg_info <= Z.of_nat (length data_out) ->
  has_opener msg_info (end_byte msg_info) noise = false ->
  last noise <> Some (reject_byte msg_info) ->
  Z.of_nat (length (noise ++ wire_frame msg_info payload ++ rest))
    <= SIZE_MAX ->
  ll_deserialize msg_info
    (Ptr (noise ++ wire_frame msg_info payload ++ rest))
    (Z.of_nat (length (noise ++ wire_frame msg_info payload ++ rest)))
    (Ptr data_out) (Ptr remainder)
  = Some (LL_STATUS_MESSAGE_TOO_SHORT,
          Ptr (payload ++ drop (length payload) data_out),
          Ptr (Z.of_nat (length noise
                         + length (wire_frame msg_info payload)))).
Proof.
  intros Hdistinct Hlen Hlastp Hbuf Hnoise Hlast Hmax.
  rewrite ll_deserialize_fold by done.
  pose proof (escaped_payload_length msg_info payload) as He.
  pose proof (count_control_bounds msg_info payload) as Hc.
  set (n := Z.of_nat
              (length (noise ++ wire_frame msg_info payload ++ rest))) in *.
  assert (n = Z.of_nat (length noise) + 1
              + Z.of_nat (length (escaped_payload msg_info payload)) + 1
              + Z.of_nat (length rest)) as Hn.
  { unfold n, wire_frame. rewrite !length_app. cbn [length].
    rewrite length_app. cbn [length]. lia. }
  destruct (fold_stream_payload msg_info n data_out Hdistinct noise payload)
    as (l & Hfold & Hl & Hbyte); [done|done|lia..|].
  unfold wire_frame.
  replace (noise ++ (begin_byte msg_info
                     :: escaped_payload msg_info payload
                        ++ [end_byte msg_info]) ++ rest)
    with ((noise ++ begin_byte msg_info :: escaped_payload msg_info payload)
          ++ end_byte msg_info :: rest)
    by (by simplify_list_eq).
  rewrite fold_bytes_app, Hfold. cbn [fold_bytes].
  destruct Hl as (Hopen & _ & Hign & Hiter & Hout).
  assert (byte l <> reject_byte msg_info) as Hprev.
  { rewrite Hbyte. destruct Hdistinct as (_ & Hbr & _).
    destruct (last payload) as [b|]; simpl; congruence. }
  rewrite bool_decide_eq_false_2 in Hign by done.
  rewrite !length_app. cbn [length]. rewrite length_app. cbn [length].
  rewrite step_premature_end; [|lia|lia| |lia|done|done].
  - rewrite Hout. do 3 f_equal. lia.
  - unfold frame_open. by rewrite Hopen.
Qed.

Lemma short_frame_too_short_witness :
  ll_deserialize example_info
    (Ptr ([x07] ++ wire_frame example_info [xbb; x11] ++ [xaa]))
    (Z.of_nat (length ([x07] ++ wire_frame example_info [xbb; x11]
                       ++ [xaa])))
    (Ptr (zeros 16)) (Ptr 0)
  = Some (LL_STATUS_MESSAGE_TOO_SHORT,
          Ptr ([xbb; x11] ++ drop (length [xbb; x11]) (zeros 16)),
          Ptr (Z.of_nat (length [x07]
                         + length (wire_frame example_info [xbb; x11])))).
Proof.
  apply (short_frame_too_short example_info [x07] [xbb; x11] [xaa]
           (zeros 16) 0).
  - repeat split; discriminate.
  - vm_compute. reflexivity.
  - discriminate.
  - vm_compute. discriminate.
  - reflexivity.
  - discriminate.
  - vm_compute. discriminate.
Defined.

(** ** Windows that end inside a frame *)

Section truncation.
Variable msg_info : ll_message_info_t.
Variable byte_stream_size : Z.
Variable data_out : list uint8_t.
Hypothesis distinct : distinct_control_bytes msg_info.

(** The scan of any beginning [bytes] of an escaped payload: [j] payload
    bytes are in [data_out], at most one per byte read and exactly one per
    byte read when no [reject_byte] was among them. *)
Lemma fold_escaped_prefix (payload : list uint8_t) :
  forall (bytes : list uint8_t) i decoded l,
    decoding msg_info data_out decoded l ->
    Z.of_nat (length decoded + length payload) <= size msg_info ->
    (length decoded + length payload <= length data_out)%nat ->
    Z.of_nat (length decoded + length payload) <= SIZE_MAX ->
    bytes `prefix_of` escaped_payload msg_info payload ->
    exists l' (j : nat),
      fold_bytes (ll_deserialize_step msg_info byte_stream_size) i l bytes
        = Continue l'
      /\ message_opened l' = true
      /\ message_iter l' = Z.of_nat (length decoded + j)
      /\ out l' = (decoded ++ take j payload)
                  ++ drop (length decoded + j) data_out
      /\ (j <= length bytes)%nat
      /\ (j <= length payload)%nat
      /\ (Forall (fun b => b <> reject_byte msg_info) bytes ->
          j = length bytes)
      /\ j = decoded_count msg_info bytes.
Proof.
  induction payload as [|b payload IH];
    intros bytes i decoded l Hl Hsize Hbuf Hmax Hpre.
  - apply prefix_nil_inv in Hpre as ->. exists l, 0%nat.
    destruct Hl as (? & ? & ? & ? & ?).
    rewrite take_0, (right_id_L [] (++)), Nat.add_0_r.
    repeat split; (done || lia).
  - destruct bytes as [|b1 bytes].
    { exists l, 0%nat. destruct Hl as (? & ? & ? & ? & ?).
      rewrite take_0, (right_id_L [] (++)), Nat.add_0_r.
      repeat split; (done || simpl; lia). }
    cbn [escaped_payload length] in *.
    destruct (is_control_byte msg_info b) eqn:Hb.
    + pose proof (prefix_cons_inv_1 _ _ _ _ Hpre) as ->.
      apply prefix_cons_inv_2 in Hpre.
      destruct bytes as [|b2 bytes].
      * cbn [fold_bytes].
        rewrite (step_reject_byte msg_info byte_stream_size data_out distinct
                   i decoded l) by (done || lia).
        eexists _, 0%nat. split; [done|]. cbn [decoded_count].
        rewrite bool_decide_eq_true_2 by done. simpl.
        rewrite ?take_0, ?(right_id_L [] (++)), ?Nat.add_0_r.
        repeat split; try (done || lia).
        intros HF. apply Forall_cons in HF as [? _]. done.
      * pose proof (prefix_cons_inv_1 _ _ _ _ Hpre) as ->.
        apply prefix_cons_inv_2 in Hpre.
        destruct (step_escaped_byte msg_info byte_stream_size data_out
                    distinct i b decoded l) as (l1 & Hstep & Hl1);
          [done|lia..|].
        change (reject_byte msg_info :: b :: bytes)
          with ([reject_byte msg_info; b] ++ bytes).
        rewrite fold_bytes_app, Hstep.
        destruct (IH bytes (i + Z.of_nat (length [reject_byte msg_info; b]))
                     (decoded ++ [b]) l1)
          as (l' & j & Hfold & Hopen & Hiter & Hout & Hj1 & Hj2 & _ & Hj4);
          [done|rewrite length_app; simpl; lia..|done|].
        exists l', (Datatypes.S j). split; [done|]. split; [done|].
        rewrite length_app in Hiter, Hout. cbn [length] in Hiter, Hout.
        split; [rewrite Hiter; f_equal; lia|].
        split.
        { rewrite Hout. cbn [take].
          replace (length decoded + Datatypes.S j)%nat
            with (length decoded + 1 + j)%nat by lia.
          by rewrite <- !(assoc_L (++)). }
        split; [cbn [app length]; lia|]. split; [lia|].
        split; [intros HF; apply Forall_cons in HF as [? _]; done|].
        cbn [app decoded_count]. rewrite bool_decide_eq_true_2 by done.
        by rewrite Hj4.
    + pose proof (prefix_cons_inv_1 _ _ _ _ Hpre) as ->.
      apply prefix_cons_inv_2 in Hpre.
      destruct (step_plain_byte msg_info byte_stream_size data_out
                  i b decoded l) as (l1 & Hstep & Hl1);
        [done|done|lia..|].
      cbn [fold_bytes]. rewrite Hstep.
      destruct (IH bytes (i + 1) (decoded ++ [b]) l1)
        as (l' & j & Hfold & Hopen & Hiter & Hout & Hj1 & Hj2 & Hj3 & Hj4);
        [done|rewrite length_app; simpl; lia..|done|].
      exists l', (Datatypes.S j). split; [done|]. split; [done|].
      rewrite length_app in Hiter, Hout. cbn [length] in Hiter, Hout.
      split; [rewrite Hiter; f_equal; lia|].
      split.
      { rewrite Hout. cbn [take].
        replace (length decoded + Datatypes.S j)%nat
          with (length decoded + 1 + j)%nat by lia.
        by rewrite <- !(assoc_L (++)). }
      split; [cbn [length]; lia|]. split; [lia|].
      split; [intros HF; apply Forall_cons in HF as [_ HF];
              by rewrite (Hj3 HF)|].
      cbn [decoded_count].
      apply is_control_byte_false in Hb as (_ & _ & Hb).
      rewrite bool_decide_eq_false_2 by done. by rewrite Hj4.
Qed.
End truncation.

Lemma escaped_payload_app msg_info (xs ys : list uint8_t) :
  escaped_payload msg_info (xs ++ ys)
  = escaped_payload msg_info xs ++ escaped_payload msg_info ys.
Proof.
  induction xs as [|x xs IH]; [done|].
  cbn [app escaped_payload]. rewrite IH.
  by destruct (is_control_byte msg_info x).
Qed.

Lemma escaped_payload_plain msg_info (payload : list uint8_t) :
  Forall (fun b => is_control_byte msg_info b = false) payload ->
  escaped_payload msg_info payload = payload.
Proof.
  induction 1 as [|b payload Hb _ IH]; [done|].
  cbn [escaped_payload]. by rewrite Hb, IH.
Qed.

Lemma ll_deserialize_truncated msg_info
    (noise payload bytes data_out : list uint8_t) (remainder : Z) :
  distinct_control_bytes msg_info ->
  Z.of_nat (length payload) <= size msg_info ->
  1 <= size msg_info <= SIZE_MAX ->
  size msg_info <= Z.of_nat (length data_out) ->
  has_opener msg_info (end_byte msg_info) noise = false ->
  last noise <> Some (reject_byte msg_info) ->
  bytes `prefix_of` escaped_payload msg_info payload ->
  Z.of_nat (length (noise ++ begin_byte msg_info :: bytes)) <= SIZE_MAX ->
  exists j : nat,
    (j <= length bytes)%nat
    /\ (j <= length payload)%nat
    /\ (Forall (fun b => b <> reject_byte msg_info) bytes -> j = length bytes)
    /\ j = decoded_count msg_info bytes
    /\ ll_deserialize msg_info (Ptr (noise ++ begin_byte msg_info :: bytes))
         (Z.of_nat (length (noise ++ begin_byte msg_info :: bytes)))
         (Ptr data_out) (Ptr remainder)
       = Some (LL_STATUS_NO_ENOUGH_BYTES,
               Ptr (take j payload ++ drop j data_out),
               Ptr (Z.of_nat (length noise) + Z.of_nat (length bytes)
                    - Z.of_nat j)).
Proof.
  intros Hdistinct Hlen Hsize Hbuf Hnoise Hlast Hpre Hmax.
  rewrite ll_deserialize_fold by done.
  set (n := Z.of_nat (length (noise ++ begin_byte msg_info :: bytes))) in *.
  assert (n = Z.of_nat (length noise) + 1 + Z.of_nat (length bytes)) as Hn.
  { unfold n. rewrite length_app. cbn [length]. lia. }
  destruct (fold_stream_payload msg_info n data_out Hdistinct noise [])
    as (l0 & Hfold0 & Hl0 & _); [done|done|lia|cbn [length]; lia..|].
  cbn [escaped_payload] in Hfold0.
  destruct (fold_escaped_prefix msg_info n data_out Hdistinct payload bytes
              (0 + Z.of_nat (length (noise ++ [begin_byte msg_info])))
              [] l0)
    as (l & j & Hfold & Hopen & Hiter & Hout & Hj1 & Hj2 & Hj3 & Hj4);
    [done|cbn [length]; lia|cbn [length]; lia| |done|].
  { cbn [length]. pose proof (escaped_payload_length msg_info payload) as He.
    pose proof (count_control_bounds msg_info payload) as Hc.
    destruct Hpre as [k Hk]. apply (f_equal length) in Hk.
    rewrite length_app in Hk. lia. }
  exists j. split; [done|]. split; [done|]. split; [done|]. split; [done|].
  rewrite (cons_middle _ noise bytes), (assoc_L (++)), fold_bytes_app, Hfold0.
  rewrite Hfold, Hopen. cbn [app length Nat.add] in Hiter, Hout.
  rewrite Hiter, Hout.
  rewrite (size_t_wrap_ok (n - Z.of_nat j)) by (unfold size_t_ok; lia).
  rewrite size_t_wrap_ok by (unfold size_t_ok; lia).
  do 3 f_equal. lia.
Qed.

(** X8.  For distinct control bytes, a message size from 1 up and an
    output buffer of [size] bytes or more: if the bytes before the frame
    open no frame and do not end in [reject_byte], a window that ends inside
    the frame, after the opening delimiter and any beginning [bytes] of the
    escaped payload, makes [ll_deserialize] return
    [LL_STATUS_NO_ENOUGH_BYTES].  [data_out] holds the
    [decoded_count bytes] payload bytes that [bytes] holds in full, and
    [*remainder] is the offset of the opening delimiter plus the number of
    escape bytes read, [length bytes - decoded_count bytes]: it is the
    offset of the opening delimiter when no [reject_byte] was read. *)
Theorem truncated_frame_not_enough_bytes (msg_info : ll_message_info_t)
    (noise payload bytes data_out : list uint8_t) (remainder : Z) :
  distinct_control_bytes msg_info ->
  Z.of_nat (length payload) = size msg_info ->
  1 <= size msg_info <= SIZE_MAX ->
  size msg_info <= Z.of_nat (length data_out) ->
  has_opener msg_info (end_byte msg_info) noise = false ->
  last noise <> Some (reject_byte msg_info) ->
  bytes `prefix_of` escaped_payload msg_info payload ->
  Z.of_nat (length (noise ++ begin_byte msg_info :: bytes)) <= SIZE_MAX ->
  ll_deserialize msg_info (Ptr (noise ++ begin_byte msg_info :: bytes))
    (Z.of_nat (length (noise ++ begin_byte msg_info :: bytes)))
    (Ptr data_out) (Ptr remainder)
  = Some (LL_STATUS_NO_ENOUGH_BYTES,
          Ptr (take (decoded_count msg_info bytes) payload
               ++ drop (decoded_count msg_info bytes) data_out),
          Ptr (Z.of_nat (length noise)
               + Z.of_nat (length bytes - decoded_count msg_info bytes)))
  /\ (decoded_count msg_info bytes <= length bytes)%nat
  /\ (Forall (fun b => b <> reject_byte msg_info) bytes ->
      decoded_count msg_info bytes = length bytes).
Proof.
  intros Hdistinct Hlen Hsize Hbuf Hnoise Hlast Hpre Hmax.
  destruct (ll_deserialize_truncated msg_info noise payload bytes data_out
              remainder) as (j & Hj1 & _ & Hj3 & -> & Hcall);
    [done|lia|done..|].
  split; [|by split].
  rewrite Hcall. do 3 f_equal. lia.
Qed.

Lemma truncated_frame_not_enough_bytes_witness :
  ll_deserialize pair_info
    (Ptr ([x07] ++ begin_byte pair_info :: [xcc; xbb; x11]))
    (Z.of_nat (length ([x07] ++ begin_byte pair_info :: [xcc; xbb; x11])))
    (Ptr [x00; x00]) (Ptr 0)
  = Some (LL_STATUS_NO_ENOUGH_BYTES,
          Ptr (take (decoded_count pair_info [xcc; xbb; x11]) [xbb; x11]
               ++ drop (decoded_count pair_info [xcc; xbb; x11]) [x00; x00]),
          Ptr (Z.of_nat (length [x07])
               + Z.of_nat (length [xcc; xbb; x11]
                           - decoded_count pair_info [xcc; xbb; x11])))
  /\ (decoded_count pair_info [xcc; xbb; x11] <= length [xcc; xbb; x11])%nat
  /\ (Forall (fun b => b <> reject_byte pair_info) [xcc; xbb; x11] ->
      decoded_count pair_info [xcc; xbb; x11] = length [xcc; xbb; x11]).
Proof.
  apply (truncated_frame_not_enough_bytes pair_info [x07] [xbb; x11]
           [xcc; xbb; x11] [x00; x00] 0).
  - repeat split; discriminate.
  - reflexivity.
  - split; vm_compute; discriminate.
  - vm_compute. discriminate.
  - reflexivity.
  - discriminate.
  - by exists [].
  - vm_compute. discriminate.
Defined.

(** X9.  Resuming works when no escape byte was received.  For distinct
    control bytes, a message size from 1 up and output buffers of [size]
    bytes or more: if the bytes before the frame open no frame and do not
    end in [reject_byte], the window ends inside the frame and the payload
    bytes [received] so far hold no control byte, the call returns
    [LL_STATUS_NO_ENOUGH_BYTES] with the offset of the opening delimiter as
    remainder, and the call on the stream from that offset on, once the
    rest of the frame is there, returns the whole payload with
    [LL_STATUS_SUCCESS]. *)
Theorem resume_at_frame_start (msg_info : ll_message_info_t)
    (noise received pending rest data_out buf : list uint8_t)
    (remainder remainder' : Z) :
  distinct_control_bytes msg_info ->
  Z.of_nat (length (received ++ pending)) = size msg_info ->
  1 <= size msg_info <= SIZE_MAX ->
  size msg_info <= Z.of_nat (length data_out) ->
  size msg_info <= Z.of_nat (length buf) ->
  has_opener msg_info (end_byte msg_info) noise = false ->
  last noise <> Some (reject_byte msg_info) ->
  Forall (fun b => is_control_byte msg_info b = false) received ->
  Z.of_nat (length (noise ++ wire_frame msg_info (received ++ pending)
                      ++ rest)) <= SIZE_MAX ->
  take (length (noise ++ begin_byte msg_info :: received))
       (noise ++ wire_frame msg_info (received ++ pending) ++ rest)
    = noise ++ begin_byte msg_info :: received
  /\ ll_deserialize msg_info (Ptr (noise ++ begin_byte msg_info :: received))
       (Z.of_nat (length (noise ++ begin_byte msg_info :: received)))
       (Ptr data_out) (Ptr remainder)
     = Some (LL_STATUS_NO_ENOUGH_BYTES,
             Ptr (received ++ drop (length received) data_out),
             Ptr (Z.of_nat (length noise)))
  /\ ll_deserialize msg_info
       (Ptr (drop (length noise)
                  (noise ++ wire_frame msg_info (received ++ pending)
                     ++ rest)))
       (Z.of_nat (length (noise ++ wire_frame msg_info (received ++ pending)
                            ++ rest))
        - Z.of_nat (length noise))
       (Ptr buf) (Ptr remainder')
     = Some (LL_STATUS_SUCCESS,
             Ptr ((received ++ pending)
                  ++ drop (length (received ++ pending)) buf),
             Ptr (match rest with
                  | [] => 0
                  | _ :: _ =>
                      Z.of_nat (length (wire_frame msg_info
                                          (received ++ pending)))
                  end)).
Proof.
  intros Hdistinct Hlen Hsize Hbuf Hbuf' Hnoise Hlast Hplain Hmax.
  assert (wire_frame msg_info (received ++ pending)
          = begin_byte msg_info :: received
            ++ (escaped_payload msg_info pending ++ [end_byte msg_info]))
    as Hframe.
  { unfold wire_frame.
    rewrite escaped_payload_app, escaped_payload_plain by done.
    by rewrite <- (assoc_L (++)). }
  split; [|split].
  - rewrite Hframe.
    replace (noise ++ (begin_byte msg_info :: received
                       ++ escaped_payload msg_info pending
                          ++ [end_byte msg_info]) ++ rest)
      with ((noise ++ begin_byte msg_info :: received)
            ++ (escaped_payload msg_info pending ++ [end_byte msg_info])
               ++ rest)
      by (by simplify_list_eq).
    apply take_app_length.
  - destruct (ll_deserialize_truncated msg_info noise (received ++ pending)
                received data_out remainder)
      as (j & _ & _ & Hj & _ & ->); [done|lia|done..| | |].
    + rewrite escaped_payload_app, escaped_payload_plain by done.
      by eexists.
    + etrans; [|exact Hmax]. rewrite Hframe, !length_app. cbn [length].
      rewrite !length_app. lia.
    + rewrite Hj.
      * rewrite take_app_length. do 3 f_equal. lia.
      * eapply Forall_impl; [exact Hplain|]. intros b Hb.
        by apply is_control_byte_false in Hb as (_ & _ & ?).
  - rewrite drop_app_length.
    rewrite length_app in Hmax |- *.
    replace (Z.of_nat (length noise
                       + length (wire_frame msg_info (received ++ pending)
                                   ++ rest))
             - Z.of_nat (length noise))
      with (Z.of_nat (length (wire_frame msg_info (received ++ pending)
                                ++ rest))) by lia.
    rewrite ll_deserialize_fold by (done || lia).
    pose proof (fold_frame_in_stream msg_info
                  (Z.of_nat (length (wire_frame msg_info (received ++ pending)
                                       ++ rest)))
                  [] (received ++ pending) rest buf) as H.
    cbn [app length Nat.add] in H. rewrite H; try (done || lia); clear H.
    + do 3 f_equal. rewrite !length_app.
      destruct rest; cbn [length]; case_bool_decide; (done || lia).
    + rewrite !length_app. lia.
Qed.

Lemma resume_at_frame_start_witness :
  take (length ([x07] ++ begin_byte pair_info :: [x11]))
       ([x07] ++ wire_frame pair_info ([x11] ++ [xbb]) ++ [x09])
    = [x07] ++ begin_byte pair_info :: [x11]
  /\ ll_deserialize pair_info (Ptr ([x07] ++ begin_byte pair_info :: [x11]))
       (Z.of_nat (length ([x07] ++ begin_byte pair_info :: [x11])))
       (Ptr [x00; x00]) (Ptr 0)
     = Some (LL_STATUS_NO_ENOUGH_BYTES,
             Ptr ([x11] ++ drop (length [x11]) [x00; x00]),
             Ptr (Z.of_nat (length [x07])))
  /\ ll_deserialize pair_info
       (Ptr (drop (length [x07])
                  ([x07] ++ wire_frame pair_info ([x11] ++ [xbb])
                     ++ [x09])))
       (Z.of_nat (length ([x07] ++ wire_frame pair_info ([x11] ++ [xbb])
                            ++ [x09]))
        - Z.of_nat (length [x07]))
       (Ptr [x11; x00]) (Ptr 1)
     = Some (LL_STATUS_SUCCESS,
             Ptr (([x11] ++ [xbb])
                  ++ drop (length ([x11] ++ [xbb])) [x11; x00]),
             Ptr (match [x09] with
                  | [] => 0
                  | _ :: _ =>
                      Z.of_nat (length (wire_frame pair_info
                                          ([x11] ++ [xbb])))
                  end)).
Proof.
  apply (resume_at_frame_start pair_info [x07] [x11] [xbb] [x09]
           [x00; x00] [x11; x00] 0 1).
  - repeat split; discriminate.
  - reflexivity.
  - split; vm_compute; discriminate.
  - vm_compute. discriminate.
  - vm_compute. discriminate.
  - reflexivity.
  - discriminate.
  - by repeat constructor.
  - vm_compute. discriminate.
Defined.

(** ** More on the encoder *)

Lemma escaped_payload_inj msg_info (xs : list uint8_t) :
  forall (ys tail1 tail2 : list uint8_t),
    length xs = length ys ->
    escaped_payload msg_info xs ++ tail1
    = escaped_payload msg_info ys ++ tail2 ->
    xs = ys.
Proof.
  induction xs as [|x xs IH]; intros [|y ys] tail1 tail2 Hlen Heq;
    try done.
  cbn [escaped_payload] in Heq.
  destruct (is_control_byte msg_info x) eqn:Hx,
           (is_control_byte msg_info y) eqn:Hy;
    cbn [app] in Heq.
  - injection Heq as -> Heq. f_equal. eapply IH; [|exact Heq].
    by injection Hlen.
  - injection Heq as Hr _. rewrite <- Hr in Hy.
    apply is_control_byte_false in Hy as (_ & _ & ?). done.
  - injection Heq as Hr _. rewrite Hr in Hx.
    apply is_control_byte_false in Hx as (_ & _ & ?). done.
  - injection Heq as -> Heq. f_equal. eapply IH; [|exact Heq].
    by injection Hlen.
Qed.

Lemma ll_serialize_result msg_info (payload buf frame : list uint8_t) :
  Z.of_nat (length payload) = size msg_info ->
  size msg_info <= SIZE_MAX ->
  ll_serialize msg_info (Ptr payload) (Ptr buf) = Some (Ptr frame) ->
  frame = wire_frame msg_info payload
          ++ drop (length (wire_frame msg_info payload)) buf.
Proof.
  intros Hlen Hmax Hcall.
  destruct (decide (length (wire_frame msg_info payload) <= length buf)%nat).
  - rewrite ll_serialize_fits in Hcall by done. by injection Hcall as <-.
  - rewrite ll_serialize_overflows in Hcall by (done || lia). done.
Qed.

(** X10.  The encoding is injective on payloads of the configured size: if
    [ll_serialize] produces the same output for two payloads, whatever the
    buffers it was given, the payloads are equal. *)
Theorem ll_serialize_injective (msg_info : ll_message_info_t)
    (payload1 payload2 buf1 buf2 frame : list uint8_t) :
  Z.of_nat (length payload1) = size msg_info ->
  Z.of_nat (length payload2) = size msg_info ->
  size msg_info <= SIZE_MAX ->
  ll_serialize msg_info (Ptr payload1) (Ptr buf1) = Some (Ptr frame) ->
  ll_serialize msg_info (Ptr payload2) (Ptr buf2) = Some (Ptr frame) ->
  payload1 = payload2.
Proof.
  intros Hlen1 Hlen2 Hmax Hcall1 Hcall2.
  apply ll_serialize_result in Hcall1; [|done..].
  apply ll_serialize_result in Hcall2; [|done..].
  rewrite Hcall1 in Hcall2. unfold wire_frame in Hcall2.
  cbn [app] in Hcall2. injection Hcall2 as Heq.
  rewrite <- !(assoc_L (++)) in Heq.
  eapply escaped_payload_inj; [|exact Heq]. lia.
Qed.

Lemma ll_serialize_injective_witness : [xbb; x11] = [xbb; x11].
Proof.
  apply (ll_serialize_injective pair_info [xbb; x11] [xbb; x11]
           (zeros 5) [x01; x02; x03; x04; x05] [xaa; xcc; xbb; x11; xbb]).
  - reflexivity.
  - reflexivity.
  - vm_compute. discriminate.
  - reflexivity.
  - reflexivity.
Defined.

Lemma escaped_control_preceded msg_info (payload : list uint8_t) :
  begin_byte msg_info <> reject_byte msg_info ->
  end_byte msg_info <> reject_byte msg_info ->
  forall (i : nat) (b : uint8_t),
    escaped_payload msg_info payload !! i = Some b ->
    b = begin_byte msg_info \/ b = end_byte msg_info ->
    exists k : nat,
      i = Datatypes.S k
      /\ escaped_payload msg_info payload !! k
         = Some (reject_byte msg_info).
Proof.
  intros Hbr Her.
  induction payload as [|p payload IH]; intros i b Hi Hb; [done|].
  cbn [escaped_payload] in *.
  destruct (is_control_byte msg_info p) eqn:Hp.
  - destruct i as [|[|i]]; simpl in Hi.
    + injection Hi as <-. destruct Hb; congruence.
    + by exists 0%nat.
    + destruct (IH i b Hi Hb) as (k & -> & Hk).
      by exists (Datatypes.S (Datatypes.S k)).
  - destruct i as [|i]; simpl in Hi.
    + injection Hi as <-.
      apply is_control_byte_false in Hp as (? & ? & _). destruct Hb; done.
    + destruct (IH i b Hi Hb) as (k & -> & Hk).
      by exists (Datatypes.S k).
Qed.

(** X11.  Inside the frame [ll_serialize] writes, between its first and its
    last byte, [begin_byte] and [end_byte] only occur right after a
    [reject_byte]: a delimiter that is not escaped is a real one. *)
Theorem delimiters_escaped_inside_frame (msg_info : ll_message_info_t)
    (payload buf frame : list uint8_t) (i : nat) (b : uint8_t) :
  begin_byte msg_info <> reject_byte msg_info ->
  end_byte msg_info <> reject_byte msg_info ->
  Z.of_nat (length payload) = size msg_info ->
  size msg_info <= SIZE_MAX ->
  ll_serialize msg_info (Ptr payload) (Ptr buf) = Some (Ptr frame) ->
  (0 < i < length (wire_frame msg_info payload) - 1)%nat ->
  frame !! i = Some b ->
  b = begin_byte msg_info \/ b = end_byte msg_info ->
  frame !! (i - 1)%nat = Some (reject_byte msg_info).
Proof.
  intros Hbr Her Hlen Hmax Hcall Hi Hfi Hb.
  apply ll_serialize_result in Hcall as ->; [|done..].
  unfold wire_frame in *. cbn [length] in Hi. rewrite length_app in Hi.
  cbn [length] in Hi.
  destruct i as [|i]; [lia|].
  cbn [app] in Hfi |- *. simpl in Hfi.
  rewrite <- (assoc_L (++)), lookup_app_l in Hfi by lia.
  destruct (escaped_control_preceded msg_info payload Hbr Her i b Hfi Hb)
    as (k & -> & Hk).
  replace (Datatypes.S (Datatypes.S k) - 1)%nat with (Datatypes.S k) by lia.
  simpl. rewrite <- (assoc_L (++)), lookup_app_l; [done|].
  by eapply lookup_lt_Some.
Qed.

Lemma delimiters_escaped_inside_frame_witness :
  [xaa; xcc; xbb; x11; xbb] !! (2 - 1)%nat = Some (reject_byte pair_info).
Proof.
  apply (delimiters_escaped_inside_frame pair_info [xbb; x11] (zeros 5)
           [xaa; xcc; xbb; x11; xbb] 2 xbb).
  - discriminate.
  - discriminate.
  - reflexivity.
  - vm_compute. discriminate.
  - reflexivity.
  - vm_compute. lia.
  - reflexivity.
  - by right.
Defined.



(** ** An end byte that is not taken *)

Lemma step_end_after_literal_reject msg_info byte_stream_size data_out
    i (decoded : list uint8_t) l :
  distinct_control_bytes msg_info ->
  decoding msg_info data_out decoded l ->
  byte l = reject_byte msg_info ->
  Z.of_nat (length decoded) < size msg_info ->
  exists l',
    ll_deserialize_step msg_info byte_stream_size i (end_byte msg_info) l
      = Continue l'
    /\ message_opened l' = true
    /\ message_iter l' = message_iter l
    /\ out l' = out l.
Proof.
  destruct l as [opened rej ign iter byt prev o]. unfold decoding. simpl.
  intros (Hbe & Hbr & Her) (-> & -> & -> & -> & ->) -> Hsize.
  unfold ll_deserialize_step. simpl.
  repeat (case_bool_decide; simpl); try congruence; try lia.
  all: eexists; split; [done|]; by repeat split.
Qed.

(** X13.  The exception to X7.  For distinct control bytes and an output
    buffer of [size] bytes or more: if the bytes before the frame open no
    frame and do not end in [reject_byte], and the frame carries fewer than
    [size] payload bytes, the last of which is [reject_byte], the frame's
    [end_byte] is not taken as the end of the frame.  The scan goes on, and
    when the window ends with that frame the call returns
    [LL_STATUS_NO_ENOUGH_BYTES], with the bytes the frame carried in
    [data_out] and remainder [byte_stream_size - message_iter - 1]. *)
Theorem end_byte_after_reject_payload_byte (msg_info : ll_message_info_t)
    (noise payload data_out : list uint8_t) (remainder : Z) :
  distinct_control_bytes msg_info ->
  Z.of_nat (length payload) < size msg_info ->
  last payload = Some (reject_byte msg_info) ->
  size msg_info <= Z.of_nat (length data_out) ->
  has_opener msg_info (end_byte msg_info) noise = false ->
  last noise <> Some (reject_byte msg_info) ->
  Z.of_nat (length (noise ++ wire_frame msg_info payload)) <= SIZE_MAX ->
  ll_deserialize msg_info (Ptr (noise ++ wire_frame msg_info payload))
    (Z.of_nat (length (noise ++ wire_frame msg_info payload)))
    (Ptr data_out) (Ptr remainder)
  = Some (LL_STATUS_NO_ENOUGH_BYTES,
          Ptr (payload ++ drop (length payload) data_out),
          Ptr (Z.of_nat (length (noise ++ wire_frame msg_info payload))
               - Z.of_nat (length payload) - 1)).
Proof.
  intros Hdistinct Hlen Hlastp Hbuf Hnoise Hlast Hmax.
  rewrite ll_deserialize_fold by done.
  pose proof (escaped_payload_length msg_info payload) as He.
  pose proof (count_control_bounds msg_info payload) as Hc.
  set (n := Z.of_nat (length (noise ++ wire_frame msg_info payload))) in *.
  assert (n = Z.of_nat (length noise) + 1
              + Z.of_nat (length (escaped_payload msg_info payload)) + 1)
    as Hn.
  { unfold n, wire_frame. rewrite !length_app. cbn [length].
    rewrite length_app. cbn [length]. lia. }
  destruct (fold_stream_payload msg_info n data_out Hdistinct noise payload)
    as (l & Hfold & Hl & Hbyte); [done|done|lia..|].
  unfold wire_frame.
  replace (noise ++ begin_byte msg_info
             :: escaped_payload msg_info payload ++ [end_byte msg_info])
    with ((noise ++ begin_byte msg_info :: escaped_payload msg_info payload)
          ++ [end_byte msg_info])
    by (by simplify_list_eq).
  rewrite fold_bytes_app, Hfold. cbn [fold_bytes].
  rewrite Hlastp in Hbyte. simpl in Hbyte.
  destruct (step_end_after_literal_reject msg_info n data_out
              (0 + Z.of_nat (length (noise ++ begin_byte msg_info
                                       :: escaped_payload msg_info payload)))
              payload l) as (l' & -> & -> & -> & ->); [done..|].
  destruct Hl as (_ & _ & _ & -> & ->).
  rewrite (size_t_wrap_ok (n - Z.of_nat (length payload)))
    by (unfold size_t_ok; lia).
  rewrite size_t_wrap_ok by (unfold size_t_ok; lia).
  done.
Qed.

Lemma end_byte_after_reject_payload_byte_witness :
  ll_deserialize example_info
    (Ptr ([x07] ++ wire_frame example_info [x11; xcc]))
    (Z.of_nat (length ([x07] ++ wire_frame example_info [x11; xcc])))
    (Ptr (zeros 16)) (Ptr 0)
  = Some (LL_STATUS_NO_ENOUGH_BYTES,
          Ptr ([x11; xcc] ++ drop (length [x11; xcc]) (zeros 16)),
          Ptr (Z.of_nat (length ([x07] ++ wire_frame example_info [x11; xcc]))
               - Z.of_nat (length [x11; xcc]) - 1)).
Proof.
  apply (end_byte_after_reject_payload_byte example_info [x07] [x11; xcc]
           (zeros 16) 0).
  - repeat split; discriminate.
  - vm_compute. reflexivity.
  - reflexivity.
  - vm_compute. discriminate.
  - reflexivity.
  - discriminate.
  - vm_compute. discriminate.
Defined.
